(** * strat-3: the dashboard's arbitrage, matching and search logic

    A shallow embedding of the computational parts of the dashboard page
    ([frontend/app/page.tsx]): the watchlist calculation of [WatchlistView],
    the deduplication and cross-platform pairing of [UnifiedMarketsTable],
    and the search filter of [Dashboard].

    Conventions of the embedding.
    - A JavaScript [number] is an exact rational ([Q]) wherever what is
      stated holds of the rounded values just as well; comparisons are
      [Qle_bool] and equalities between computed numbers are stated with
      [==]. What depends on the rounding - which strategy wins a tie - is
      stated on the binary64 values themselves ([Watchlist64]).
    - A JavaScript string is a [string] of bytes; [toLowerCase] folds the
      ASCII letters only.
    - An optional or nullable field ([string | null], [field?: string]) is
      an [option]; [x || d] on such a field is written out with its
      falsy cases ([None] and the empty string).
    - [Array.prototype.sort] is the stable sort by the comparator;
      a [Map] is an association list in insertion order;
      a [Set<string>] is a [gset string]. *)

From Stdlib Require Import QArith Qminmax Lqa Ascii Sorting.Sorted Sorting.Permutation.
From Stdlib Require Import Floats.SpecFloat.
From stdpp Require Import base list strings gmap.

Local Open Scope Q_scope.

Abbreviation number := Q (only parsing).

(** ** Array.prototype.sort *)

Section ArraySort.
Context {A : Type}.
Variable compareFn : A -> A -> number.

(** [x] was before every element of [l] in the array; it stays before
    the elements it does not compare greater than. *)
Fixpoint sort_insert (x : A) (l : list A) : list A :=
  match l with
  | [] => [x]
  | y :: l' =>
      if Qle_bool (compareFn x y) 0 then x :: y :: l'
      else y :: sort_insert x l'
  end.

Fixpoint Array_sort (l : list A) : list A :=
  match l with
  | [] => []
  | x :: l' => sort_insert x (Array_sort l')
  end.
End ArraySort.

(** ** WatchlistView *)

Module Watchlist.

Inductive Side := YES | NO.

(** The [polymarket] and [kalshi] members of [MarketMatch]. *)
Record Quote := {
  id : string;
  name : option string;
  yes_price : number;
  no_price : number;
  url : option string
}.

Record MarketMatch := {
  normalized_name : string;
  game_date : option string;
  sport : option string;
  polymarket : Quote;
  kalshi : Quote;
  price_diff_yes : number
}.

(** The object built by the [map] callback: [...match] plus the
    computed members. *)
Record Opportunity := {
  match_ : MarketMatch;
  strategy : nat;
  cost : number;
  profit : number;
  profitPercent : number;
  polyBuy : Side;
  polyPrice : number;
  kalshiBuy : Side;
  kalshiPrice : number
}.

Definition Math_max (a b : number) : number :=
  if Qle_bool a b then b else a.

Definition cost1 (m : MarketMatch) : number :=
  yes_price (polymarket m) + no_price (kalshi m).
Definition profit1 (m : MarketMatch) : number := 1 - cost1 m.

Definition cost2 (m : MarketMatch) : number :=
  no_price (polymarket m) + yes_price (kalshi m).
Definition profit2 (m : MarketMatch) : number := 1 - cost2 m.

Definition chooseStrategy (m : MarketMatch) : nat :=
  if Qle_bool (profit2 m) (profit1 m) then 1%nat else 2%nat.

Definition toOpportunity (m : MarketMatch) : Opportunity :=
  let polyYes := yes_price (polymarket m) in
  let polyNo := no_price (polymarket m) in
  let kalshiYes := yes_price (kalshi m) in
  let kalshiNo := no_price (kalshi m) in
  let bestProfit := Math_max (profit1 m) (profit2 m) in
  let strategy := chooseStrategy m in
  {| match_ := m;
     strategy := strategy;
     cost := if Nat.eqb strategy 1 then cost1 m else cost2 m;
     profit := bestProfit;
     profitPercent := bestProfit * 100;
     polyBuy := if Nat.eqb strategy 1 then YES else NO;
     polyPrice := if Nat.eqb strategy 1 then polyYes else polyNo;
     kalshiBuy := if Nat.eqb strategy 1 then NO else YES;
     kalshiPrice := if Nat.eqb strategy 1 then kalshiNo else kalshiYes |}.

(** [opp.profit > 0] *)
Definition isProfitable (o : Opportunity) : bool :=
  negb (Qle_bool (profit o) 0).

Definition byProfitDesc (a b : Opportunity) : number :=
  profit b - profit a.

Definition opportunities (matches : list MarketMatch) : list Opportunity :=
  Array_sort byProfitDesc (List.filter isProfitable (List.map toOpportunity matches)).

Definition isSuspicious (profitPercent : number) : bool :=
  negb (Qle_bool profitPercent 15).

(** One rendered row per opportunity, with the flag that selects the
    red styling and the warning line. *)
Definition rows (matches : list MarketMatch) : list (Opportunity * bool) :=
  List.map (fun opp => (opp, isSuspicious (profitPercent opp))) (opportunities matches).

(** The figure of the header, [opportunities[0]?.profitPercent || 0],
    shown when there is an opportunity. *)
Definition bestProfitPercent (matches : list MarketMatch) : number :=
  match opportunities matches with
  | opp :: _ => if Qeq_bool (profitPercent opp) 0 then 0 else profitPercent opp
  | [] => 0
  end.

End Watchlist.

(** ** WatchlistView on binary64

    The [map] callback once more, with a [number] as what it is at run
    time: an IEEE 754 binary64 value ([spec_float] at precision 53 and
    maximal exponent 1024), each operation rounding to nearest, ties to
    even. Which strategy wins a tie or a near tie depends on that
    rounding. *)

Module Watchlist64.

Abbreviation double := spec_float (only parsing).

(** [a + b], [a - b], [a * b] and [a / b] *)
Definition add (a b : double) : double := SFadd 53 1024 a b.
Definition sub (a b : double) : double := SFsub 53 1024 a b.
Definition mul (a b : double) : double := SFmul 53 1024 a b.
Definition div (a b : double) : double := SFdiv 53 1024 a b.

(** The double of an integer literal such as [1.0] or [100]. *)
Definition ofZ (n : Z) : double := binary_normalize 53 1024 n 0 false.

(** The double a decimal literal [n / 10^k] denotes: the one nearest to
    it, which is the correctly rounded quotient of the two integers. *)
Definition decimal (n d : Z) : double := div (ofZ n) (ofZ d).

(** [a >= b] and [a === b]: false when either side is NaN. *)
Definition ge (a b : double) : bool := SFleb b a.
Definition strictEquals (a b : double) : bool := SFeqb a b.

(** [a < b] *)
Definition lt (a b : double) : bool := SFltb a b.

(** [Math.max(a, b)]: NaN if either is NaN, and +0 is larger than -0. *)
Definition Math_max (a b : double) : double :=
  match a, b with
  | S754_nan, _ | _, S754_nan => S754_nan
  | S754_zero sa, S754_zero sb => S754_zero (sa && sb)
  | _, _ => if lt a b then b else a
  end.

Record Quote := {
  id : string;
  yes_price : double;
  no_price : double
}.

Record MarketMatch := {
  normalized_name : string;
  polymarket : Quote;
  kalshi : Quote
}.

Record Opportunity := {
  match_ : MarketMatch;
  strategy : nat;
  cost : double;
  profit : double;
  profitPercent : double;
  polyBuy : Watchlist.Side;
  polyPrice : double;
  kalshiBuy : Watchlist.Side;
  kalshiPrice : double
}.

Definition cost1 (m : MarketMatch) : double :=
  add (yes_price (polymarket m)) (no_price (kalshi m)).
Definition profit1 (m : MarketMatch) : double := sub (ofZ 1) (cost1 m).

Definition cost2 (m : MarketMatch) : double :=
  add (no_price (polymarket m)) (yes_price (kalshi m)).
Definition profit2 (m : MarketMatch) : double := sub (ofZ 1) (cost2 m).

Definition chooseStrategy (m : MarketMatch) : nat :=
  if ge (profit1 m) (profit2 m) then 1%nat else 2%nat.

Definition toOpportunity (m : MarketMatch) : Opportunity :=
  let polyYes := yes_price (polymarket m) in
  let polyNo := no_price (polymarket m) in
  let kalshiYes := yes_price (kalshi m) in
  let kalshiNo := no_price (kalshi m) in
  let bestProfit := Math_max (profit1 m) (profit2 m) in
  let strategy := chooseStrategy m in
  {| match_ := m;
     strategy := strategy;
     cost := if Nat.eqb strategy 1 then cost1 m else cost2 m;
     profit := bestProfit;
     profitPercent := mul bestProfit (ofZ 100);
     polyBuy := if Nat.eqb strategy 1 then Watchlist.YES else Watchlist.NO;
     polyPrice := if Nat.eqb strategy 1 then polyYes else polyNo;
     kalshiBuy := if Nat.eqb strategy 1 then Watchlist.NO else Watchlist.YES;
     kalshiPrice := if Nat.eqb strategy 1 then kalshiNo else kalshiYes |}.

(** The matched pair with the two quotes exchanged. *)
Definition exchanged (m : MarketMatch) : MarketMatch :=
  {| normalized_name := normalized_name m;
     polymarket := kalshi m;
     kalshi := polymarket m |}.

End Watchlist64.

(** ** JavaScript idioms on strings and maps *)

(** [s || d] for [s : string | null | undefined]: the empty string is
    falsy as well. *)
Definition orElse (s : option string) (d : string) : string :=
  match s with
  | Some s' => if String.eqb s' "" then d else s'
  | None => d
  end.

(** [s || null] *)
Definition orNull (s : option string) : option string :=
  match s with
  | Some s' => if String.eqb s' "" then None else Some s'
  | None => None
  end.

(** [s.startsWith(p)] *)
Definition startsWith (s p : string) : bool := String.prefix p s.

(** [s.slice(0, n)] *)
Definition slice0 (n : nat) (s : string) : string := String.substring 0 n s.

(** A [Map<string, V>]: the entries in insertion order, keys distinct. *)
Section JsMap.
Context {V : Type}.

Definition Map_has (m : list (string * V)) (key : string) : bool :=
  existsb (fun kv => String.eqb kv.1 key) m.

(** [set] on a present key replaces the value where the entry is; on an
    absent key it adds the entry last. *)
Fixpoint Map_set (m : list (string * V)) (key : string) (v : V) : list (string * V) :=
  match m with
  | [] => [(key, v)]
  | kv :: m' =>
      if String.eqb kv.1 key then (key, v) :: m'
      else kv :: Map_set m' key v
  end.

Definition Map_values (m : list (string * V)) : list V := List.map snd m.
End JsMap.

(** ** UnifiedMarketsTable *)

Module Unified.

Record MarketItem := {
  id : string;
  name : string;
  normalized_name : option string;
  game_date : option string;
  sport : option string;
  yes_price : number;
  no_price : number;
  category : string;
  market_type : option string
}.

Record UnifiedMarket := {
  key : string;
  normalizedName : string;
  u_sport : option string;
  gameDate : option string;
  polymarket : option MarketItem;
  kalshi : option MarketItem
}.

Inductive MarketTypeFilter := moneyline | spread | over_under | props | all.

Definition matchesMarketType (marketTypeFilter : MarketTypeFilter)
    (market : MarketItem) : bool :=
  let marketType := orElse (market_type market) "" in
  match marketTypeFilter with
  | moneyline => String.eqb marketType "game_winner"
  | spread => String.eqb marketType "spread"
  | over_under => String.eqb marketType "over_under"
  | props => startsWith marketType "player_prop"
  | all => true
  end.

(** [market.market_type?.startsWith("player_prop") ? `-${name.slice(0, 30)}` : ""] *)
Definition propKey (market : MarketItem) : string :=
  match market_type market with
  | Some t => if startsWith t "player_prop" then "-" +:+ slice0 30 (name market) else ""
  | None => ""
  end.

(** The key under which both deduplication loops file a market. *)
Definition gameKey (market : MarketItem) : string :=
  orElse (normalized_name market) (name market) +:+ "-" +:+
  orElse (game_date market) "" +:+ "-" +:+
  orElse (sport market) "" +:+ "-" +:+
  orElse (market_type market) "" +:+ propKey market.

(** One pass of either deduplication loop over the filtered markets. *)
Definition byGame (markets : list MarketItem) : list (string * MarketItem) :=
  fold_left
    (fun byGame market =>
       let key := gameKey market in
       if negb (Map_has byGame key) then Map_set byGame key market else byGame)
    markets [].

Definition deduped (marketTypeFilter : MarketTypeFilter)
    (markets : list MarketItem) : list MarketItem :=
  Map_values (byGame (List.filter (matchesMarketType marketTypeFilter) markets)).

(** [polyKey] and [kKey]: name, date and sport only. *)
Definition pairKey (market : MarketItem) : string :=
  orElse (normalized_name market) (name market) +:+ "-" +:+
  orElse (game_date market) "" +:+ "-" +:+
  orElse (sport market) "".

(** The callback of [dedupedKalshi.find]. *)
Definition isMatchFor (polyKey : string) (usedKalshiIds : gset string)
    (k : MarketItem) : bool :=
  String.eqb (pairKey k) polyKey && negb (bool_decide (id k ∈ usedKalshiIds)).

(** The two mutable locals of the pairing loops. *)
Record Locals := {
  unifiedMarkets : list UnifiedMarket;
  usedKalshiIds : gset string
}.

Definition polyRow (poly : MarketItem) (matchingKalshi : option MarketItem)
    : UnifiedMarket :=
  {| key := pairKey poly;
     normalizedName := orElse (normalized_name poly) (name poly);
     u_sport := orNull (sport poly);
     gameDate := orNull (game_date poly);
     polymarket := Some poly;
     kalshi := matchingKalshi |}.

Definition kalshiRow (k : MarketItem) : UnifiedMarket :=
  {| key := "kalshi-" +:+ id k;
     normalizedName := orElse (normalized_name k) (name k);
     u_sport := orNull (sport k);
     gameDate := orNull (game_date k);
     polymarket := None;
     kalshi := Some k |}.

(** Body of the first loop, for one Polymarket market. *)
Definition pairOne (dedupedKalshi : list MarketItem) (st : Locals)
    (poly : MarketItem) : Locals :=
  let matchingKalshi :=
    List.find (isMatchFor (pairKey poly) (usedKalshiIds st)) dedupedKalshi in
  {| unifiedMarkets := unifiedMarkets st ++ [polyRow poly matchingKalshi];
     usedKalshiIds :=
       match matchingKalshi with
       | Some k => {[ id k ]} ∪ usedKalshiIds st
       | None => usedKalshiIds st
       end |}.

(** Body of the second loop, for one Kalshi market. *)
Definition addRemaining (st : Locals) (k : MarketItem) : Locals :=
  if bool_decide (id k ∈ usedKalshiIds st) then st
  else {| unifiedMarkets := unifiedMarkets st ++ [kalshiRow k];
          usedKalshiIds := usedKalshiIds st |}.

(** Both loops, before the final sort. *)
Definition paired (dedupedPoly dedupedKalshi : list MarketItem) : Locals :=
  fold_left addRemaining dedupedKalshi
    (fold_left (pairOne dedupedKalshi) dedupedPoly
       {| unifiedMarkets := []; usedKalshiIds := ∅ |}).

Section Sorting.
(** [a.localeCompare(b)] in the collation of the host. *)
Variable localeCompare : string -> string -> number.

Definition bySportDateName (a b : UnifiedMarket) : number :=
  if bool_decide (u_sport a ≠ u_sport b)
  then localeCompare (orElse (u_sport a) "") (orElse (u_sport b) "")
  else if bool_decide (gameDate a ≠ gameDate b)
  then localeCompare (orElse (gameDate a) "") (orElse (gameDate b) "")
  else localeCompare (normalizedName a) (normalizedName b).

Definition UnifiedMarketsTable (polyMarkets kalshiMarkets : list MarketItem)
    (marketTypeFilter : MarketTypeFilter) : list UnifiedMarket :=
  let dedupedPoly := deduped marketTypeFilter polyMarkets in
  let dedupedKalshi := deduped marketTypeFilter kalshiMarkets in
  Array_sort bySportDateName
    (unifiedMarkets (paired dedupedPoly dedupedKalshi)).
End Sorting.

(** The rows counted by [matchedCount]: both platforms present. *)
Definition matchedPair (m : UnifiedMarket) : option (MarketItem * MarketItem) :=
  match polymarket m, kalshi m with
  | Some p, Some k => Some (p, k)
  | _, _ => None
  end.

Definition matchedPairs (rows : list UnifiedMarket) : list (MarketItem * MarketItem) :=
  omap matchedPair rows.

(** The same two loops as a relation between the locals before and after,
    with [Array.prototype.find] given by its contract: the first element
    the callback accepts, [undefined] when it accepts none. *)
Inductive Array_find {A : Type} (p : A -> bool) : list A -> option A -> Prop :=
| find_undefined : Array_find p [] None
| find_here x l : p x = true -> Array_find p (x :: l) (Some x)
| find_next x l r : p x = false -> Array_find p l r -> Array_find p (x :: l) r.

Inductive pairLoop (dedupedKalshi : list MarketItem)
  : list MarketItem -> Locals -> Locals -> Prop :=
| pairLoop_done st : pairLoop dedupedKalshi [] st st
| pairLoop_iter poly rest st matchingKalshi st' :
    Array_find (isMatchFor (pairKey poly) (usedKalshiIds st)) dedupedKalshi
      matchingKalshi ->
    pairLoop dedupedKalshi rest
      {| unifiedMarkets := unifiedMarkets st ++ [polyRow poly matchingKalshi];
         usedKalshiIds :=
           match matchingKalshi with
           | Some k => {[ id k ]} ∪ usedKalshiIds st
           | None => usedKalshiIds st
           end |} st' ->
    pairLoop dedupedKalshi (poly :: rest) st st'.

Inductive remainingLoop : list MarketItem -> Locals -> Locals -> Prop :=
| remainingLoop_done st : remainingLoop [] st st
| remainingLoop_skip k rest st st' :
    id k ∈ usedKalshiIds st ->
    remainingLoop rest st st' ->
    remainingLoop (k :: rest) st st'
| remainingLoop_push k rest st st' :
    id k ∉ usedKalshiIds st ->
    remainingLoop rest
      {| unifiedMarkets := unifiedMarkets st ++ [kalshiRow k];
         usedKalshiIds := usedKalshiIds st |} st' ->
    remainingLoop (k :: rest) st st'.

(** One execution of the matching pass of the component. *)
Inductive runs (localeCompare : string -> string -> number)
    (polyMarkets kalshiMarkets : list MarketItem)
    (marketTypeFilter : MarketTypeFilter) : list UnifiedMarket -> Prop :=
| runs_intro st1 st2 :
    pairLoop (deduped marketTypeFilter kalshiMarkets)
      (deduped marketTypeFilter polyMarkets)
      {| unifiedMarkets := []; usedKalshiIds := ∅ |} st1 ->
    remainingLoop (deduped marketTypeFilter kalshiMarkets) st1 st2 ->
    runs localeCompare polyMarkets kalshiMarkets marketTypeFilter
      (Array_sort (bySportDateName localeCompare) (unifiedMarkets st2)).

End Unified.

(** ** Dashboard: the search box *)

(** [s.toLowerCase()] on ASCII. *)
Definition lowerAscii (c : ascii) : ascii :=
  let n := nat_of_ascii c in
  if ((65 <=? n) && (n <=? 90))%nat then ascii_of_nat (n + 32) else c.

Fixpoint toLowerCase (s : string) : string :=
  match s with
  | EmptyString => EmptyString
  | String c s' => String (lowerAscii c) (toLowerCase s')
  end.

(** [s.includes(q)] *)
Fixpoint includes (s q : string) : bool :=
  String.prefix q s ||
  match s with
  | EmptyString => false
  | String _ s' => includes s' q
  end.

(** Text within ASCII: there the case fold above is the one of the
    built-in [toLowerCase], which beyond ASCII depends on the context of a
    letter. *)
Fixpoint isAscii (s : string) : bool :=
  match s with
  | EmptyString => true
  | String c s' => (nat_of_ascii c <? 128)%nat && isAscii s'
  end.

(** The contract of [includes]: [q] occurs in [s] as a substring. *)
Definition occurs (q s : string) : Prop :=
  exists pre post : string, s = pre +:+ q +:+ post.

Module Dashboard.

Record Listing := {
  id : string;
  question : string;
  yes_price : number;
  no_price : number;
  url : string
}.

Record ArbitrageOpportunity := {
  polymarket : Listing;
  kalshi : Listing;
  league : option string;
  market_type : string;
  team : option string;
  price_difference : number;
  price_difference_percent : number;
  profit_bps : number;
  buy_on : string;
  sell_on : string;
  match_score : number;
  match_reason : string
}.

Record ApiResponse := {
  opportunities : list ArbitrageOpportunity
}.

(** [field?.toLowerCase().includes(query)], falsy on a missing field. *)
Definition fieldIncludes (field : option string) (query : string) : bool :=
  match field with
  | Some s => includes (toLowerCase s) query
  | None => false
  end.

(** The callback of [data?.opportunities.filter]. *)
Definition matchesSearch (searchQuery : string) (opp : ArbitrageOpportunity) : bool :=
  if String.eqb searchQuery "" then true
  else
    let query := toLowerCase searchQuery in
    includes (toLowerCase (question (polymarket opp))) query ||
    includes (toLowerCase (question (kalshi opp))) query ||
    includes (toLowerCase (id (kalshi opp))) query ||
    fieldIncludes (league opp) query ||
    fieldIncludes (team opp) query.

Definition filteredOpportunities (data : option ApiResponse)
    (searchQuery : string) : list ArbitrageOpportunity :=
  match data with
  | Some d => List.filter (matchesSearch searchQuery) (opportunities d)
  | None => []
  end.

(** The texts the search callback reads are ASCII. *)
Definition searchedTextIsAscii (opp : ArbitrageOpportunity) : bool :=
  isAscii (question (polymarket opp)) &&
  isAscii (question (kalshi opp)) &&
  isAscii (id (kalshi opp)) &&
  match league opp with Some l => isAscii l | None => true end &&
  match team opp with Some t => isAscii t | None => true end.

End Dashboard.

(** ** AllMarketsTab *)

Module AllMarkets.

(** A [Set<string>] that is iterated: its members in insertion order. *)
Definition Set_add (s : list string) (x : string) : list string :=
  if existsb (String.eqb x) s then s else s ++ [x].

(** [m.sport && allSports.add(m.sport.toLowerCase())] *)
Definition addSport (allSports : list string) (m : Unified.MarketItem) : list string :=
  match Unified.sport m with
  | Some s => if String.eqb s "" then allSports else Set_add allSports (toLowerCase s)
  | None => allSports
  end.

Definition allSports (polyMarkets kalshiMarkets : list Unified.MarketItem) : list string :=
  fold_left addSport kalshiMarkets (fold_left addSport polyMarkets []).

(** The order of [sort()] without a comparator, on strings: by code unit. *)
Definition defaultCompare (a b : string) : number :=
  match String.compare a b with
  | Lt => -1
  | Eq => 0
  | Gt => 1
  end.

Definition sportsList (polyMarkets kalshiMarkets : list Unified.MarketItem) : list string :=
  Array_sort defaultCompare (allSports polyMarkets kalshiMarkets).

(** [!searchQuery || name matches || (normalized_name && it matches)] *)
Definition matchesSearch (searchQuery : string) (m : Unified.MarketItem) : bool :=
  String.eqb searchQuery "" ||
  includes (toLowerCase (Unified.name m)) (toLowerCase searchQuery) ||
  match Unified.normalized_name m with
  | Some n =>
      negb (String.eqb n "") && includes (toLowerCase n) (toLowerCase searchQuery)
  | None => false
  end.

(** [!selectedSport || m.sport?.toLowerCase() === selectedSport] *)
Definition matchesSport (selectedSport : option string) (m : Unified.MarketItem) : bool :=
  match selectedSport with
  | None => true
  | Some sel =>
      String.eqb sel "" ||
      match Unified.sport m with
      | Some s => String.eqb (toLowerCase s) sel
      | None => false
      end
  end.

(** [filteredPoly] and [filteredKalshi]: one callback for both. *)
Definition filteredMarkets (searchQuery : string) (selectedSport : option string)
    (markets : list Unified.MarketItem) : list Unified.MarketItem :=
  List.filter (fun m => matchesSearch searchQuery m && matchesSport selectedSport m) markets.

Definition filteredMatches (searchQuery : string)
    (matches : list Watchlist.MarketMatch) : list Watchlist.MarketMatch :=
  List.filter
    (fun m =>
       String.eqb searchQuery "" ||
       includes (toLowerCase (Watchlist.normalized_name m)) (toLowerCase searchQuery))
    matches.

Definition getDisplayName (market : Unified.MarketItem) : string :=
  let fallback :=
    if (60 <? String.length (Unified.name market))%nat
    then String.substring 0 60 (Unified.name market) +:+ "..."
    else Unified.name market in
  match Unified.normalized_name market with
  | Some n =>
      if negb (String.eqb n "") && negb (String.eqb n (Unified.name market))
      then n else fallback
  | None => fallback
  end.

(** The table of the tab: the filtered lists handed to [UnifiedMarketsTable]. *)
Definition table (localeCompare : string -> string -> number)
    (polyMarkets kalshiMarkets : list Unified.MarketItem)
    (searchQuery : string) (selectedSport : option string)
    (betType : Unified.MarketTypeFilter) : list Unified.UnifiedMarket :=
  Unified.UnifiedMarketsTable localeCompare
    (filteredMarkets searchQuery selectedSport polyMarkets)
    (filteredMarkets searchQuery selectedSport kalshiMarkets)
    betType.

(** The texts the search callback of the tab reads are ASCII. *)
Definition namesAreAscii (m : Unified.MarketItem) : bool :=
  isAscii (Unified.name m) &&
  match Unified.normalized_name m with Some n => isAscii n | None => true end.

End AllMarkets.

(** ** Sample data *)

Module Samples.

Definition quote (id : string) (yes no : number) : Watchlist.Quote :=
  {| Watchlist.id := id; Watchlist.name := None;
     Watchlist.yes_price := yes; Watchlist.no_price := no;
     Watchlist.url := None |}.

(** Lakers at Celtics with the given four prices; [diff] is the
    [price_diff_yes] the API sent along. *)
Definition lakers_celtics (polyYes polyNo kalshiYes kalshiNo diff : number)
    : Watchlist.MarketMatch :=
  {| Watchlist.normalized_name := "lakers vs celtics";
     Watchlist.game_date := Some "2025-12-05";
     Watchlist.sport := Some "nba";
     Watchlist.polymarket := quote "0x51a3" polyYes polyNo;
     Watchlist.kalshi := quote "KXNBAGAME-25DEC05LALBOS-LAL" kalshiYes kalshiNo;
     Watchlist.price_diff_yes := diff |}.

(** Polymarket YES at 40c against Kalshi NO at 50c: the README's example. *)
Definition readme_match : Watchlist.MarketMatch :=
  lakers_celtics (40#100) (60#100) (50#100) (50#100) 10.

(** YES prices ten points apart, yet neither strategy costs less than $1. *)
Definition wide_unprofitable : Watchlist.MarketMatch :=
  lakers_celtics (70#100) (40#100) (60#100) (45#100) 10.

(** Strategy 1 costs 80c: a 20% profit. *)
Definition suspicious_match : Watchlist.MarketMatch :=
  lakers_celtics (30#100) (75#100) (55#100) (50#100) 25.

Definition item (id name : string) (market_type : string) (yes no : number)
    : Unified.MarketItem :=
  {| Unified.id := id; Unified.name := name;
     Unified.normalized_name := Some "lakers vs celtics";
     Unified.game_date := Some "2025-12-05";
     Unified.sport := Some "nba";
     Unified.yes_price := yes; Unified.no_price := no;
     Unified.category := "sports";
     Unified.market_type := Some market_type |}.

(** The two Kalshi game-winner markets of one game, odds inverted. *)
Definition kalshi_lakers : Unified.MarketItem :=
  item "KXNBAGAME-25DEC05LALBOS-LAL" "Lakers to win" "game_winner" (60#100) (40#100).
Definition kalshi_celtics : Unified.MarketItem :=
  item "KXNBAGAME-25DEC05LALBOS-BOS" "Celtics to win" "game_winner" (40#100) (60#100).

(** Two Kalshi player props of that game, odds inverted as well. *)
Definition kalshi_prop_james : Unified.MarketItem :=
  item "KXNBAPTS-25DEC05-LJAMES" "LeBron James 25+ points" "player_prop_points"
    (60#100) (40#100).
Definition kalshi_prop_tatum : Unified.MarketItem :=
  item "KXNBAPTS-25DEC05-JTATUM" "Jayson Tatum 25+ points" "player_prop_points"
    (40#100) (60#100).

Definition poly_game : Unified.MarketItem :=
  item "0x51a3" "Lakers vs. Celtics" "game_winner" (42#100) (58#100).

(** A collation: code-unit order. *)
Definition codeUnitCompare (a b : string) : number :=
  match String.compare a b with
  | Lt => -1
  | Eq => 0
  | Gt => 1
  end.

(** The table for [poly_game] against the two Kalshi game-winner markets. *)
Definition lakers_celtics_table : list Unified.UnifiedMarket :=
  [ {| Unified.key := "lakers vs celtics-2025-12-05-nba";
       Unified.normalizedName := "lakers vs celtics";
       Unified.u_sport := Some "nba";
       Unified.gameDate := Some "2025-12-05";
       Unified.polymarket := Some poly_game;
       Unified.kalshi := Some kalshi_lakers |} ].

Definition listing (id question : string) (yes no : number) : Dashboard.Listing :=
  {| Dashboard.id := id; Dashboard.question := question;
     Dashboard.yes_price := yes; Dashboard.no_price := no;
     Dashboard.url := "" |}.

(** An opportunity as the API serves it. *)
Definition served : Dashboard.ArbitrageOpportunity :=
  {| Dashboard.polymarket := listing "0x51a3" "Lakers vs. Celtics" (42#100) (58#100);
     Dashboard.kalshi :=
       listing "KXNBAGAME-25DEC05LALBOS-LAL" "Celtics at Lakers Winner?"
         (55#100) (45#100);
     Dashboard.league := Some "NBA";
     Dashboard.market_type := "game_winner";
     Dashboard.team := Some "Lakers";
     Dashboard.price_difference := 13#100;
     Dashboard.price_difference_percent := 13;
     Dashboard.profit_bps := 1261;
     Dashboard.buy_on := "polymarket";
     Dashboard.sell_on := "kalshi";
     Dashboard.match_score := 92#100;
     Dashboard.match_reason := "team+date exact match" |}.

(** A Kalshi market of another game. *)
Definition kalshi_knicks : Unified.MarketItem :=
  {| Unified.id := "KXNBAGAME-25DEC05NYKMIA-NYK"; Unified.name := "Knicks to win";
     Unified.normalized_name := Some "knicks vs heat";
     Unified.game_date := Some "2025-12-05";
     Unified.sport := Some "NBA";
     Unified.yes_price := 55#100; Unified.no_price := 45#100;
     Unified.category := "sports";
     Unified.market_type := Some "game_winner" |}.

(** Matched pairs with prices given in cents, as the doubles that the
    decimal literals denote. *)
Definition cents (polyYes polyNo kalshiYes kalshiNo : Z) : Watchlist64.MarketMatch :=
  {| Watchlist64.normalized_name := "lakers vs celtics";
     Watchlist64.polymarket :=
       {| Watchlist64.id := "0x51a3";
          Watchlist64.yes_price := Watchlist64.decimal polyYes 100;
          Watchlist64.no_price := Watchlist64.decimal polyNo 100 |};
     Watchlist64.kalshi :=
       {| Watchlist64.id := "KXNBAGAME-25DEC05LALBOS-LAL";
          Watchlist64.yes_price := Watchlist64.decimal kalshiYes 100;
          Watchlist64.no_price := Watchlist64.decimal kalshiNo 100 |} |}.

End Samples.

(** * Properties *)

(** ** The sort *)

Section ArraySortFacts.
Context {A : Type}.
Variable compareFn : A -> A -> number.

Lemma sort_insert_perm (x : A) (l : list A) :
  Permutation (sort_insert compareFn x l) (x :: l).
Proof.
  induction l as [|y l IH]; simpl; [reflexivity|].
  destruct (Qle_bool (compareFn x y) 0); [reflexivity|].
  rewrite IH. apply perm_swap.
Qed.

Lemma Array_sort_perm (l : list A) : Permutation (Array_sort compareFn l) l.
Proof.
  induction l as [|x l IH]; simpl; [reflexivity|].
  rewrite sort_insert_perm. by constructor.
Qed.

Lemma Array_sort_In (l : list A) (x : A) :
  In x (Array_sort compareFn l) <-> In x l.
Proof.
  split; apply Permutation_in; [|symmetry]; apply Array_sort_perm.
Qed.

(** A comparator that never calls both orders of a pair "greater". *)
Hypothesis compareFn_total :
  forall a b, compareFn a b <= 0 \/ compareFn b a <= 0.

Lemma sort_insert_HdRel (y x : A) (l : list A) :
  compareFn y x <= 0 ->
  HdRel (fun a b => compareFn a b <= 0) y l ->
  HdRel (fun a b => compareFn a b <= 0) y (sort_insert compareFn x l).
Proof.
  intros Hyx Hl. destruct l as [|z l]; simpl; [by constructor|].
  destruct (Qle_bool (compareFn x z) 0); constructor; [done|].
  by inversion Hl.
Qed.

Lemma sort_insert_Sorted (x : A) (l : list A) :
  Sorted (fun a b => compareFn a b <= 0) l ->
  Sorted (fun a b => compareFn a b <= 0) (sort_insert compareFn x l).
Proof.
  induction 1 as [|y l Hs IH Hhd]; simpl; [by repeat constructor|].
  destruct (Qle_bool (compareFn x y) 0) eqn:Hxy.
  - constructor; [by constructor|]. constructor. by apply Qle_bool_iff.
  - constructor; [done|]. apply sort_insert_HdRel; [|done].
    destruct (compareFn_total x y) as [Hle|Hle]; [|done].
    apply Qle_bool_iff in Hle. congruence.
Qed.

Lemma Array_sort_Sorted (l : list A) :
  Sorted (fun a b => compareFn a b <= 0) (Array_sort compareFn l).
Proof.
  induction l as [|x l IH]; simpl; [constructor|].
  by apply sort_insert_Sorted.
Qed.
End ArraySortFacts.

(** ** WatchlistView *)

Section WatchlistFacts.
Import Watchlist.

Lemma Math_max_cases (a b : number) :
  (a <= b /\ Math_max a b = b) \/ (b <= a /\ Math_max a b = a).
Proof.
  unfold Math_max. destruct (Qle_bool a b) eqn:H.
  - left. split; [by apply Qle_bool_iff|done].
  - right. split; [|done].
    destruct (Qlt_le_dec b a) as [Hlt|Hle]; [by apply Qlt_le_weak|].
    apply Qle_bool_iff in Hle. congruence.
Qed.

Lemma chooseStrategy_cases (m : MarketMatch) :
  (chooseStrategy m = 1%nat /\ profit2 m <= profit1 m) \/
  (chooseStrategy m = 2%nat /\ profit1 m < profit2 m).
Proof.
  unfold chooseStrategy. destruct (Qle_bool (profit2 m) (profit1 m)) eqn:H.
  - left. split; [done|by apply Qle_bool_iff].
  - right. split; [done|]. apply Qnot_le_lt. intros Hle.
    apply Qle_bool_iff in Hle. congruence.
Qed.

(** The reported profit is that of the reported strategy. *)
Lemma profit_of_strategy (m : MarketMatch) :
  profit (toOpportunity m) ==
  if Nat.eqb (strategy (toOpportunity m)) 1 then profit1 m else profit2 m.
Proof.
  simpl. destruct (chooseStrategy_cases m) as [[-> H]|[-> H]]; simpl;
    destruct (Math_max_cases (profit1 m) (profit2 m)) as [[H' ->]|[H' ->]];
    try reflexivity.
  - by apply Qle_antisym.
  - exfalso. by apply (Qlt_not_le _ _ H).
Qed.

Lemma profit_is_gross (m : MarketMatch) :
  profit (toOpportunity m) == 1 - cost (toOpportunity m).
Proof.
  rewrite profit_of_strategy. simpl.
  by destruct (Nat.eqb (chooseStrategy m) 1).
Qed.

Lemma isProfitable_iff (o : Opportunity) : isProfitable o = true <-> 0 < profit o.
Proof.
  unfold isProfitable. rewrite negb_true_iff. split.
  - intros H. apply Qnot_le_lt. intros Hle. apply Qle_bool_iff in Hle. congruence.
  - intros H. destruct (Qle_bool (profit o) 0) eqn:E; [|done].
    apply Qle_bool_iff in E. exfalso. by apply (Qlt_not_le _ _ H).
Qed.

Lemma isSuspicious_iff (p : number) : isSuspicious p = true <-> 15 < p.
Proof.
  unfold isSuspicious. rewrite negb_true_iff. split.
  - intros H. apply Qnot_le_lt. intros Hle. apply Qle_bool_iff in Hle. congruence.
  - intros H. destruct (Qle_bool p 15) eqn:E; [|done].
    apply Qle_bool_iff in E. exfalso. by apply (Qlt_not_le _ _ H).
Qed.

Lemma opportunities_In (matches : list MarketMatch) (o : Opportunity) :
  In o (opportunities matches) <->
  (exists m, In m matches /\ o = toOpportunity m) /\ 0 < profit o.
Proof.
  unfold opportunities. rewrite Array_sort_In, filter_In, in_map_iff, isProfitable_iff.
  split; intros [[m [? ?]] Hp]; (split; [|done]); exists m; by split.
Qed.

End WatchlistFacts.

Section WatchlistClaims.
Import Watchlist.

Lemma Sorted_weaken {A : Type} (R R' : A -> A -> Prop) (l : list A) :
  (forall a b, R a b -> R' a b) -> Sorted R l -> Sorted R' l.
Proof.
  intros HR. induction 1 as [|x l Hs IH Hhd]; constructor; [done|].
  destruct Hhd; constructor. by apply HR.
Qed.

Lemma byProfitDesc_le (a b : Opportunity) :
  byProfitDesc a b <= 0 <-> profit b <= profit a.
Proof.
  unfold byProfitDesc. split; intros H.
  - apply Qplus_le_l with (z := - profit a). by rewrite Qplus_opp_r.
  - apply Qplus_le_l with (z := - profit a) in H. by rewrite Qplus_opp_r in H.
Qed.

(** C1, as the code has it: the profit the watchlist reports for a matched
    pair is the gross profit, 1.0 minus the combined cost of the chosen
    strategy, with no venue fee deducted; the figure derived from it is
    [profitPercent], the profit multiplied by 100. *)
Theorem C1_profit_is_gross_profit (m : MarketMatch) :
  let o := toOpportunity m in
  profit o == 1 - cost o /\
  (cost o = cost1 m \/ cost o = cost2 m) /\
  profitPercent o == profit o * 100.
Proof.
  split; [apply profit_is_gross|]. split; [|reflexivity].
  simpl. destruct (Nat.eqb (chooseStrategy m) 1); auto.
Qed.

(** C1 as claimed fails: for no pair of positive fee rates is the reported
    profit the gross profit minus each venue's fee on the gross profit.
    At 40c + 50c the watchlist reports 0.10, not 0.097. *)
Lemma C1_no_fee_is_deducted :
  ~ exists feeA feeB : number, 0 < feeA /\ 0 < feeB /\
      forall m, let gross := 1 - cost (toOpportunity m) in
        profit (toOpportunity m) == gross - feeA * gross - feeB * gross.
Proof.
  intros (feeA & feeB & HA & HB & H).
  specialize (H Samples.readme_match). cbv zeta in H.
  assert (Hp : profit (toOpportunity Samples.readme_match) == 1 # 10) by reflexivity.
  assert (Hc : 1 - cost (toOpportunity Samples.readme_match) == 1 # 10) by reflexivity.
  rewrite Hp, Hc in H.
  assert (E : feeA + feeB == 0).
  { assert (E1 : feeA + feeB == ((1#10) - ((1#10) - feeA * (1#10) - feeB * (1#10))) * 10)
      by ring.
    rewrite E1, <- H. ring. }
  assert (0 < feeA + feeB) by (rewrite <- (Qplus_0_l 0); by apply Qplus_lt_le_compat, Qlt_le_weak).
  rewrite E in *. by apply (Qlt_irrefl 0).
Qed.

(** C2: for every matched pair the calculation prices exactly the two
    strategies, cost1 = Polymarket YES + Kalshi NO and cost2 = Polymarket NO
    + Kalshi YES, each with profit 1.0 - cost; the reported profit is the
    maximum of the two, and the reported strategy, cost, sides and prices
    are those of a strategy that attains it. *)
Theorem C2_best_of_two_strategies (m : MarketMatch) :
  let o := toOpportunity m in
  let polyYes := yes_price (polymarket m) in
  let polyNo := no_price (polymarket m) in
  let kalshiYes := yes_price (kalshi m) in
  let kalshiNo := no_price (kalshi m) in
  profit o == Qmax (1 - (polyYes + kalshiNo)) (1 - (polyNo + kalshiYes)) /\
  ((strategy o = 1%nat /\ cost o = polyYes + kalshiNo /\
    polyBuy o = YES /\ polyPrice o = polyYes /\
    kalshiBuy o = NO /\ kalshiPrice o = kalshiNo /\
    profit o == 1 - (polyYes + kalshiNo) /\
    1 - (polyNo + kalshiYes) <= profit o)
   \/
   (strategy o = 2%nat /\ cost o = polyNo + kalshiYes /\
    polyBuy o = NO /\ polyPrice o = polyNo /\
    kalshiBuy o = YES /\ kalshiPrice o = kalshiYes /\
    profit o == 1 - (polyNo + kalshiYes) /\
    1 - (polyYes + kalshiNo) <= profit o)).
Proof.
  cbv zeta. pose proof (profit_of_strategy m) as Hp. simpl in Hp |- *.
  fold (cost1 m) (cost2 m) (profit1 m) (profit2 m).
  destruct (chooseStrategy_cases m) as [[Hs H]|[Hs H]]; rewrite Hs in *; simpl in *.
  - split; [by rewrite Hp, Q.max_l|]. left. rewrite Hp. by repeat split.
  - split; [by rewrite Hp, Q.max_r; [|apply Qlt_le_weak]|]. right. rewrite Hp.
    repeat split; try done. by apply Qlt_le_weak.
Qed.

(** C3, as the code has it: a matched pair appears in the watchlist exactly
    when the profit of its better strategy is strictly positive; neither a
    price difference nor a minimum-difference threshold takes part, and an
    entry that is not profitable is dropped. *)
Theorem C3_kept_iff_profitable (matches : list MarketMatch) (o : Opportunity) :
  In o (opportunities matches) <->
  (exists m, In m matches /\ o = toOpportunity m) /\ 0 < profit o.
Proof. apply opportunities_In. Qed.

(** C3 as claimed fails: a pair whose price difference (10%) is above the
    threshold (2%) but whose best strategy costs exactly $1 is not in the
    output. *)
Lemma C3_unprofitable_is_dropped :
  ~ forall (minDifference : number) (matches : list MarketMatch) (m : MarketMatch),
      In m matches -> minDifference <= price_diff_yes m ->
      exists o, In o (opportunities matches) /\ match_ o = m.
Proof.
  intros H.
  destruct (H 2 [Samples.wide_unprofitable] Samples.wide_unprofitable)
    as (o & Ho & _); [by left|by vm_compute|].
  vm_compute in Ho. done.
Qed.

(** C6: the opportunities of the watchlist are in descending order of
    profit: of two adjacent entries the earlier has a profit greater than
    or equal to the later; and they are the profitable entries, reordered. *)
Theorem C6_sorted_by_profit_descending (matches : list MarketMatch) :
  Sorted (fun a b => profit b <= profit a) (opportunities matches) /\
  Permutation (opportunities matches)
    (List.filter isProfitable (List.map toOpportunity matches)).
Proof.
  split; [|apply Array_sort_perm].
  apply Sorted_weaken with (R := fun a b => byProfitDesc a b <= 0).
  - intros a b. apply byProfitDesc_le.
  - apply Array_sort_Sorted. intros a b. rewrite !byProfitDesc_le.
    destruct (Qlt_le_dec (profit a) (profit b)); [right; by apply Qlt_le_weak|by left].
Qed.

(** C7: an opportunity whose profit percentage exceeds 15 is flagged as
    suspicious and not discarded: it is a row of the output, and its row
    carries the flag. *)
Theorem C7_suspicious_flagged_not_dropped
    (matches : list MarketMatch) (m : MarketMatch) :
  In m matches ->
  isSuspicious (profitPercent (toOpportunity m)) = true ->
  In (toOpportunity m, true) (rows matches).
Proof.
  intros Hm Hs. unfold rows. apply in_map_iff. exists (toOpportunity m).
  split; [by rewrite Hs|]. apply opportunities_In. split; [by exists m|].
  apply isSuspicious_iff in Hs. simpl in Hs |- *.
  destruct (Qlt_le_dec 0 (Math_max (profit1 m) (profit2 m))) as [|Hle]; [done|].
  exfalso. apply (Qlt_not_le _ _ Hs).
  apply Qle_trans with (y := 0 * 100); [|done].
  by apply Qmult_le_compat_r.
Qed.

Lemma C7_witness :
  In (toOpportunity Samples.suspicious_match, true)
    (rows [Samples.readme_match; Samples.suspicious_match]).
Proof.
  apply (C7_suspicious_flagged_not_dropped
           [Samples.readme_match; Samples.suspicious_match] Samples.suspicious_match).
  - right. left. reflexivity.
  - vm_compute. reflexivity.
Defined.

End WatchlistClaims.

(** ** UnifiedMarketsTable: deduplication *)

Section DedupFacts.
Import Unified.

Lemma Map_has_app {V : Type} (m1 m2 : list (string * V)) (key : string) :
  Map_has (m1 ++ m2) key = Map_has m1 key || Map_has m2 key.
Proof. apply existsb_app. Qed.

Lemma Map_set_absent {V : Type} (m : list (string * V)) (key : string) (v : V) :
  Map_has m key = false -> Map_set m key v = m ++ [(key, v)].
Proof.
  induction m as [|kv m IH]; simpl; [done|].
  intros [H1 H2]%orb_false_iff. rewrite H1. f_equal. by apply IH.
Qed.

Lemma Map_values_app {V : Type} (m1 m2 : list (string * V)) :
  Map_values (m1 ++ m2) = Map_values m1 ++ Map_values m2.
Proof. apply List.map_app. Qed.

(** What the loop leaves under one key: what was there, and otherwise the
    first market of the remaining input that has the key. *)
Lemma byGame_loop_key (key : string) (markets : list MarketItem)
    (acc : list (string * MarketItem)) :
  List.filter (fun x => String.eqb (gameKey x) key)
    (Map_values
       (fold_left
          (fun byGame market =>
             let key := gameKey market in
             if negb (Map_has byGame key) then Map_set byGame key market else byGame)
          markets acc)) =
  List.filter (fun x => String.eqb (gameKey x) key) (Map_values acc) ++
  (if Map_has acc key then []
   else match List.find (fun x => String.eqb (gameKey x) key) markets with
        | Some first => [first]
        | None => []
        end).
Proof.
  revert acc. induction markets as [|x l IH]; intros acc; cbn [fold_left List.find].
  - destruct (Map_has acc key); by rewrite app_nil_r.
  - rewrite IH. cbv zeta.
    destruct (Map_has acc (gameKey x)) eqn:Hx; cbn [negb].
    + f_equal. destruct (Map_has acc key) eqn:Hk; [done|].
      destruct (String.eqb (gameKey x) key) eqn:E; [|done].
      apply String.eqb_eq in E. congruence.
    + rewrite (Map_set_absent _ _ _ Hx), Map_values_app, List.filter_app, Map_has_app.
      rewrite <- app_assoc. f_equal.
      cbn [Map_values List.map List.filter Map_has existsb fst snd].
      destruct (String.eqb (gameKey x) key) eqn:E.
      * apply String.eqb_eq in E. rewrite <- E, Hx. done.
      * rewrite !orb_false_r. done.
Qed.

Lemma deduped_key (marketTypeFilter : MarketTypeFilter)
    (markets : list MarketItem) (key : string) :
  List.filter (fun x => String.eqb (gameKey x) key) (deduped marketTypeFilter markets) =
  match List.find (fun x => String.eqb (gameKey x) key)
          (List.filter (matchesMarketType marketTypeFilter) markets) with
  | Some first => [first]
  | None => []
  end.
Proof. unfold deduped, byGame. by rewrite byGame_loop_key. Qed.

Lemma NoDup_unique_by {A : Type} (p : A -> A -> bool) (l : list A) :
  (forall x, p x x = true) ->
  (forall x, In x l -> (length (List.filter (p x) l) <= 1)%nat) ->
  NoDup l.
Proof.
  intros Hrefl. induction l as [|a l IH]; intros H; constructor.
  - intros Ha%list_elem_of_In. specialize (H a (or_introl eq_refl)). simpl in H.
    rewrite Hrefl in H. simpl in H.
    assert (Hin : In a (List.filter (p a) l)) by (apply filter_In; auto).
    revert H Hin. generalize (List.filter (p a) l).
    intros [|y k] H Hin; simpl in *; [done|lia].
  - apply IH. intros x Hx. specialize (H x (or_intror Hx)). simpl in H.
    destruct (p x a); simpl in H; lia.
Qed.

Lemma deduped_NoDup (marketTypeFilter : MarketTypeFilter) (markets : list MarketItem) :
  NoDup (deduped marketTypeFilter markets).
Proof.
  apply NoDup_unique_by with (p := fun s x => String.eqb (gameKey x) (gameKey s)).
  - intros x. apply String.eqb_refl.
  - intros x _. rewrite deduped_key. destruct (List.find _ _); simpl; lia.
Qed.

End DedupFacts.

(** ** UnifiedMarketsTable: pairing *)

Section PairingFacts.
Import Unified.

Lemma matchedPairs_app (rows1 rows2 : list UnifiedMarket) :
  matchedPairs (rows1 ++ rows2) = matchedPairs rows1 ++ matchedPairs rows2.
Proof. apply omap_app. Qed.

Lemma isMatchFor_unused (polyKey : string) (used : gset string) (k : MarketItem) :
  isMatchFor polyKey used k = true -> pairKey k = polyKey /\ id k ∉ used.
Proof.
  unfold isMatchFor. intros [H1 H2]%andb_true_iff. split.
  - by apply String.eqb_eq.
  - apply negb_true_iff in H2. by apply bool_decide_eq_false in H2.
Qed.

(** After the first loop over [polys]: the Polymarket sides of the pairs
    are a subsequence of [polys]; the Kalshi ids of the pairs are distinct
    and are exactly the ids marked as used. *)
Lemma pairOne_loop_invariant (dedupedKalshi polys : list MarketItem) :
  let st := fold_left (pairOne dedupedKalshi) polys
              {| unifiedMarkets := []; usedKalshiIds := ∅ |} in
  let pairs := matchedPairs (unifiedMarkets st) in
  (fst <$> pairs) `sublist_of` polys /\
  NoDup ((fun pk => id pk.2) <$> pairs) /\
  (forall i, i ∈ usedKalshiIds st <-> i ∈ (fun pk => id pk.2) <$> pairs).
Proof.
  induction polys as [|poly polys IH] using rev_ind; cbv zeta.
  - simpl. split; [constructor|]. split; [constructor|]. set_solver.
  - rewrite fold_left_app. cbn [fold_left]. cbv zeta in IH.
    destruct IH as (Hsub & Hnd & Hused).
    set (st := fold_left (pairOne dedupedKalshi) polys _) in *.
    unfold pairOne. cbn [unifiedMarkets usedKalshiIds].
    rewrite matchedPairs_app.
    destruct (List.find _ dedupedKalshi) as [k|] eqn:Hfind.
    + apply find_some in Hfind as [_ [_ Hfresh]%isMatchFor_unused].
      cbn. rewrite !fmap_app. cbn. split; [|split].
      * by apply sublist_app.
      * apply NoDup_app. split; [done|]. split; [|apply NoDup_singleton].
        intros i Hi ->%list_elem_of_singleton. by apply Hfresh, Hused.
      * intros i. rewrite elem_of_union, elem_of_singleton, elem_of_app,
          list_elem_of_singleton, Hused. tauto.
    + cbn. rewrite !app_nil_r. split; [|done]. by apply sublist_inserts_r.
Qed.

Lemma addRemaining_loop_pairs (kalshis : list MarketItem) (st : Locals) :
  matchedPairs (unifiedMarkets (fold_left addRemaining kalshis st)) =
  matchedPairs (unifiedMarkets st).
Proof.
  revert st. induction kalshis as [|k l IH]; intros st; [done|].
  cbn [fold_left]. rewrite IH. unfold addRemaining.
  destruct (bool_decide _); [done|]. cbn [unifiedMarkets].
  rewrite matchedPairs_app. cbn. by rewrite app_nil_r.
Qed.

Lemma UnifiedMarketsTable_pairs (localeCompare : string -> string -> number)
    (polyMarkets kalshiMarkets : list MarketItem) (f : MarketTypeFilter) :
  matchedPairs (UnifiedMarketsTable localeCompare polyMarkets kalshiMarkets f) ≡ₚ
  matchedPairs
    (unifiedMarkets
       (fold_left (pairOne (deduped f kalshiMarkets)) (deduped f polyMarkets)
          {| unifiedMarkets := []; usedKalshiIds := ∅ |})).
Proof.
  unfold UnifiedMarketsTable, paired. cbv zeta.
  rewrite <- addRemaining_loop_pairs with (kalshis := deduped f kalshiMarkets).
  unfold matchedPairs. apply omap_Permutation, Array_sort_perm.
Qed.

(** *** The loops as relations *)

Lemma Array_find_deterministic {A : Type} (p : A -> bool) (l : list A)
    (r1 r2 : option A) :
  Array_find p l r1 -> Array_find p l r2 -> r1 = r2.
Proof.
  induction 1 as [|x l Hx|x l r Hx H IH]; inversion 1; subst;
    solve [done | congruence | by apply IH].
Qed.

Lemma Array_find_complete {A : Type} (p : A -> bool) (l : list A) :
  Array_find p l (List.find p l).
Proof.
  induction l as [|x l IH]; simpl; [constructor|].
  destruct (p x) eqn:Hx; by constructor.
Qed.

Lemma pairLoop_deterministic (dedupedKalshi polys : list MarketItem)
    (st st1 st2 : Locals) :
  pairLoop dedupedKalshi polys st st1 ->
  pairLoop dedupedKalshi polys st st2 ->
  st1 = st2.
Proof.
  induction 1 as [|poly rest st k st' Hfind Hrest IH]; inversion 1; subst; [done|].
  match goal with
  | H : Array_find _ _ ?k' |- _ =>
      pose proof (Array_find_deterministic _ _ _ _ Hfind H); subst k'
  end.
  by apply IH.
Qed.

Lemma pairLoop_complete (dedupedKalshi polys : list MarketItem) (st : Locals) :
  pairLoop dedupedKalshi polys st (fold_left (pairOne dedupedKalshi) polys st).
Proof.
  revert st. induction polys as [|poly rest IH]; intros st; [constructor|].
  cbn [fold_left]. econstructor; [apply Array_find_complete|]. apply IH.
Qed.

Lemma remainingLoop_deterministic (kalshis : list MarketItem) (st st1 st2 : Locals) :
  remainingLoop kalshis st st1 -> remainingLoop kalshis st st2 -> st1 = st2.
Proof.
  induction 1 as [|k rest st st' Hk Hrest IH|k rest st st' Hk Hrest IH];
    inversion 1; subst; solve [done | by apply IH].
Qed.

Lemma remainingLoop_complete (kalshis : list MarketItem) (st : Locals) :
  remainingLoop kalshis st (fold_left addRemaining kalshis st).
Proof.
  revert st. induction kalshis as [|k rest IH]; intros st; [constructor|].
  cbn [fold_left]. unfold addRemaining at 2. case_bool_decide.
  - by apply remainingLoop_skip.
  - by apply remainingLoop_push.
Qed.

Lemma runs_complete (localeCompare : string -> string -> number)
    (polyMarkets kalshiMarkets : list MarketItem) (f : MarketTypeFilter) :
  runs localeCompare polyMarkets kalshiMarkets f
    (UnifiedMarketsTable localeCompare polyMarkets kalshiMarkets f).
Proof.
  unfold UnifiedMarketsTable, paired. cbv zeta. econstructor.
  - apply pairLoop_complete.
  - apply remainingLoop_complete.
Qed.

End PairingFacts.

Section UnifiedClaims.
Import Unified.

(** The spec's example: of the two game-winner markets of one game, with
    inverted odds, the first in input order is the one kept. *)
Example deduped_inverted_odds :
  deduped moneyline [Samples.kalshi_lakers; Samples.kalshi_celtics]
  = [Samples.kalshi_lakers] /\
  deduped moneyline [Samples.kalshi_celtics; Samples.kalshi_lakers]
  = [Samples.kalshi_celtics].
Proof. split; reflexivity. Qed.

(** C4, as the code has it: among the Kalshi markets that pass the
    market-type filter, the survivors of deduplication under any one key
    are exactly the first market seen with that key, where the key is
    [gameKey]: normalized name (or the name, when there is none), game
    date, sport and market type, extended for a player prop by the first
    30 characters of its name. *)
Theorem C4_first_seen_survives_per_key (marketTypeFilter : MarketTypeFilter)
    (kalshiMarkets : list MarketItem) (key : string) :
  List.filter (fun s => String.eqb (gameKey s) key)
    (deduped marketTypeFilter kalshiMarkets) =
  match List.find (fun k => String.eqb (gameKey k) key)
          (List.filter (matchesMarketType marketTypeFilter) kalshiMarkets) with
  | Some first => [first]
  | None => []
  end.
Proof. apply deduped_key. Qed.

(** C4 as claimed fails: two player props of one game share normalized
    name, game date and market kind, have inverted odds, and both survive. *)
Lemma C4_props_of_one_game_both_survive :
  ~ forall (marketTypeFilter : MarketTypeFilter) (kalshiMarkets : list MarketItem)
      (k : MarketItem),
      In k (List.filter (matchesMarketType marketTypeFilter) kalshiMarkets) ->
      length
        (List.filter
           (fun s => bool_decide (normalized_name s = normalized_name k /\
                                  game_date s = game_date k /\
                                  market_type s = market_type k))
           (deduped marketTypeFilter kalshiMarkets)) = 1%nat.
Proof.
  intros H.
  specialize (H props [Samples.kalshi_prop_james; Samples.kalshi_prop_tatum]
                Samples.kalshi_prop_james (or_introl eq_refl)).
  vm_compute in H. discriminate H.
Qed.

(** C5: matching is one-to-one. Among the rows of the table that pair a
    Polymarket market with a Kalshi market, no Polymarket market occurs
    twice, no Kalshi market occurs twice, and no Kalshi id occurs twice. *)
Theorem C5_matching_is_one_to_one (localeCompare : string -> string -> number)
    (polyMarkets kalshiMarkets : list MarketItem)
    (marketTypeFilter : MarketTypeFilter) :
  let pairs :=
    matchedPairs
      (UnifiedMarketsTable localeCompare polyMarkets kalshiMarkets marketTypeFilter) in
  NoDup (List.map fst pairs) /\
  NoDup (List.map snd pairs) /\
  NoDup (List.map (fun pk => id (snd pk)) pairs).
Proof.
  cbv zeta.
  pose proof (UnifiedMarketsTable_pairs localeCompare polyMarkets kalshiMarkets
                marketTypeFilter) as Hperm.
  pose proof (pairOne_loop_invariant (deduped marketTypeFilter kalshiMarkets)
                (deduped marketTypeFilter polyMarkets)) as (Hsub & Hnd & _).
  cbv zeta in Hsub, Hnd.
  assert (Hids : NoDup ((fun pk => id pk.2) <$>
            matchedPairs (UnifiedMarketsTable localeCompare polyMarkets
                            kalshiMarkets marketTypeFilter)))
    by (by rewrite Hperm).
  split; [|split].
  - change (NoDup (fst <$> matchedPairs (UnifiedMarketsTable localeCompare
              polyMarkets kalshiMarkets marketTypeFilter))).
    rewrite Hperm. eapply sublist_NoDup; [apply deduped_NoDup|exact Hsub].
  - change (NoDup (snd <$> matchedPairs (UnifiedMarketsTable localeCompare
              polyMarkets kalshiMarkets marketTypeFilter))).
    apply (NoDup_fmap_1 id). by rewrite <- list_fmap_compose.
  - exact Hids.
Qed.

(** The collation only orders the rows: it has no part in which
    markets are paired. *)
Lemma UnifiedMarketsTable_collation (compare1 compare2 : string -> string -> number)
    (polyMarkets kalshiMarkets : list MarketItem)
    (marketTypeFilter : MarketTypeFilter) :
  UnifiedMarketsTable compare1 polyMarkets kalshiMarkets marketTypeFilter ≡ₚ
  UnifiedMarketsTable compare2 polyMarkets kalshiMarkets marketTypeFilter.
Proof.
  unfold UnifiedMarketsTable. cbv zeta. by rewrite !Array_sort_perm.
Qed.

(** C8: matching is deterministic. Two executions of the matching pass on
    the same catalogs, in the same order and under the same filter and
    collation, end with the same table: the same rows and pairs, in the
    same order. (A row carries no score.) *)
Theorem C8_matching_is_deterministic (localeCompare : string -> string -> number)
    (polyMarkets kalshiMarkets : list MarketItem)
    (marketTypeFilter : MarketTypeFilter) (table1 table2 : list UnifiedMarket) :
  runs localeCompare polyMarkets kalshiMarkets marketTypeFilter table1 ->
  runs localeCompare polyMarkets kalshiMarkets marketTypeFilter table2 ->
  table1 = table2 /\ matchedPairs table1 = matchedPairs table2.
Proof.
  intros [st1 st2 Hp1 Hr1] [st1' st2' Hp2 Hr2].
  pose proof (pairLoop_deterministic _ _ _ _ _ Hp1 Hp2). subst st1'.
  pose proof (remainingLoop_deterministic _ _ _ _ Hr1 Hr2). subst st2'.
  done.
Qed.

Lemma C8_witness :
  runs Samples.codeUnitCompare [Samples.poly_game]
    [Samples.kalshi_lakers; Samples.kalshi_celtics] moneyline
    Samples.lakers_celtics_table /\
  Samples.lakers_celtics_table =
    UnifiedMarketsTable Samples.codeUnitCompare [Samples.poly_game]
      [Samples.kalshi_lakers; Samples.kalshi_celtics] moneyline.
Proof.
  assert (H : runs Samples.codeUnitCompare [Samples.poly_game]
                [Samples.kalshi_lakers; Samples.kalshi_celtics] moneyline
                Samples.lakers_celtics_table).
  { change Samples.lakers_celtics_table with
      (Array_sort (bySportDateName Samples.codeUnitCompare)
         (unifiedMarkets
            {| unifiedMarkets := [] ++ [polyRow Samples.poly_game (Some Samples.kalshi_lakers)];
               usedKalshiIds := {[ id Samples.kalshi_lakers ]} ∪ ∅ |})).
    econstructor.
    - econstructor; [apply find_here; reflexivity|]. constructor.
    - apply remainingLoop_skip; [cbn; set_solver|].
      constructor. }
  split; [exact H|].
  apply (C8_matching_is_deterministic Samples.codeUnitCompare [Samples.poly_game]
           [Samples.kalshi_lakers; Samples.kalshi_celtics] moneyline); [exact H|].
  apply runs_complete.
Defined.

End UnifiedClaims.

(** ** Dashboard: the search box *)

Section SearchFacts.
Import Dashboard.

Lemma append_cons (c : ascii) (a b : string) :
  String c a +:+ b = String c (a +:+ b).
Proof. reflexivity. Qed.

Lemma append_nil (b : string) : "" +:+ b = b.
Proof. reflexivity. Qed.

Lemma prefix_spec (q s : string) :
  String.prefix q s = true <-> exists post, s = q +:+ post.
Proof.
  revert s. induction q as [|c q IH]; intros [|d s]; simpl.
  - split; [by exists ""%string|done].
  - split; [by exists (String d s)|done].
  - split; [done|]. by intros [post H].
  - destruct (ascii_dec c d) as [->|Hne].
    + rewrite IH. split; intros [post H]; exists post;
        rewrite append_cons in *; congruence.
    + split; [done|]. intros [post H]. rewrite append_cons in H. congruence.
Qed.

Lemma includes_spec (s q : string) : includes s q = true <-> occurs q s.
Proof.
  unfold occurs. induction s as [|c s IH].
  - cbn [includes]. rewrite orb_false_r, prefix_spec. split.
    + intros [post H]. by exists ""%string, post.
    + intros ([|d pre] & post & H).
      * by exists post.
      * by rewrite append_cons in H.
  - cbn [includes]. rewrite orb_true_iff, prefix_spec, IH. split.
    + intros [[post H]|(pre & post & H)].
      * by exists ""%string, post.
      * exists (String c pre), post. by rewrite append_cons, H.
    + intros ([|d pre] & post & H).
      * left. by exists post.
      * right. exists pre, post. rewrite append_cons in H. congruence.
Qed.

Lemma fieldIncludes_spec (field : option string) (query : string) :
  fieldIncludes field query = true <->
  exists s, field = Some s /\ occurs query (toLowerCase s).
Proof.
  destruct field as [s|]; simpl.
  - rewrite includes_spec. split; [by exists s|]. by intros (? & [= <-] & ?).
  - split; [done|]. by intros (? & ? & ?).
Qed.

Lemma matchesSearch_spec (searchQuery : string) (opp : ArbitrageOpportunity) :
  matchesSearch searchQuery opp = true <->
  searchQuery = ""%string \/
  occurs (toLowerCase searchQuery) (toLowerCase (question (polymarket opp))) \/
  occurs (toLowerCase searchQuery) (toLowerCase (question (kalshi opp))) \/
  occurs (toLowerCase searchQuery) (toLowerCase (id (kalshi opp))) \/
  (exists l, league opp = Some l /\ occurs (toLowerCase searchQuery) (toLowerCase l)) \/
  (exists t, team opp = Some t /\ occurs (toLowerCase searchQuery) (toLowerCase t)).
Proof.
  unfold matchesSearch. destruct (String.eqb_spec searchQuery "") as [->|Hne].
  - split; [by left|done].
  - cbv zeta. rewrite !orb_true_iff, !includes_spec, !fieldIncludes_spec. tauto.
Qed.

(** C9, as the code has it: the search filter keeps an opportunity if and
    only if the query is empty or occurs, letter case aside, in one of its
    two titles, in its Kalshi market id, in its league or in its team. *)
Theorem C9_search_filter (data : ApiResponse) (searchQuery : string)
    (opp : ArbitrageOpportunity) :
  In opp (filteredOpportunities (Some data) searchQuery) <->
  In opp (opportunities data) /\
  (searchQuery = ""%string \/
   occurs (toLowerCase searchQuery) (toLowerCase (question (polymarket opp))) \/
   occurs (toLowerCase searchQuery) (toLowerCase (question (kalshi opp))) \/
   occurs (toLowerCase searchQuery) (toLowerCase (id (kalshi opp))) \/
   (exists l, league opp = Some l /\ occurs (toLowerCase searchQuery) (toLowerCase l)) \/
   (exists t, team opp = Some t /\ occurs (toLowerCase searchQuery) (toLowerCase t))).
Proof.
  unfold filteredOpportunities. by rewrite filter_In, matchesSearch_spec.
Qed.

(** C9 as claimed fails: a query found only in the Kalshi market id, and
    in neither title, league or team, keeps the opportunity. *)
Lemma C9_kalshi_id_is_searched_too :
  ~ forall (data : ApiResponse) (searchQuery : string) (opp : ArbitrageOpportunity),
      In opp (filteredOpportunities (Some data) searchQuery) <->
      In opp (opportunities data) /\
      (searchQuery = ""%string \/
       includes (toLowerCase (question (polymarket opp))) (toLowerCase searchQuery) = true \/
       includes (toLowerCase (question (kalshi opp))) (toLowerCase searchQuery) = true \/
       fieldIncludes (league opp) (toLowerCase searchQuery) = true \/
       fieldIncludes (team opp) (toLowerCase searchQuery) = true).
Proof.
  intros H.
  destruct (H {| opportunities := [Samples.served] |} "KXNBA"%string Samples.served)
    as [Hkept _].
  destruct Hkept as [_ Hwhy]; [by left|].
  vm_compute in Hwhy. intuition discriminate.
Qed.

End SearchFacts.

(** * Further properties *)

(** ** WatchlistView *)

Section WatchlistMore.
Import Watchlist.

Lemma Math_max_Qmax (a b : number) : Math_max a b == Qmax a b.
Proof.
  destruct (Math_max_cases a b) as [[H ->]|[H ->]].
  - by rewrite Q.max_r.
  - by rewrite Q.max_l.
Qed.

(** X1: in every opportunity of the watchlist the [cost] field is below 1,
    the [polyPrice] and [kalshiPrice] fields add up to the [cost] field,
    and the [profitPercent] field is 1 minus the cost, times 100. (The
    fields, not the digits printed from them.) *)
Theorem listed_costs_less_than_a_dollar (matches : list MarketMatch) :
  Forall (fun opp =>
            cost opp < 1 /\
            polyPrice opp + kalshiPrice opp == cost opp /\
            profitPercent opp == (1 - cost opp) * 100)
    (opportunities matches).
Proof.
  apply List.Forall_forall. intros opp [[m [_ ->]] Hpos]%opportunities_In.
  pose proof (profit_is_gross m) as Hg.
  split; [lra|]. split.
  - simpl. destruct (Nat.eqb (chooseStrategy m) 1); reflexivity.
  - change (profitPercent (toOpportunity m)) with (profit (toOpportunity m) * 100).
    by rewrite Hg.
Qed.

(** X2: the "Best" figure of the header is the largest profit percentage
    of the list: no listed opportunity exceeds it. *)
Theorem best_is_the_maximum (matches : list MarketMatch) :
  Forall (fun opp => profitPercent opp <= bestProfitPercent matches)
    (opportunities matches).
Proof.
  assert (Hpp : forall o, In o (opportunities matches) ->
                  profitPercent o == profit o * 100 /\ 0 < profit o).
  { intros o [[m [_ ->]] Hpos]%opportunities_In. split; [reflexivity|done]. }
  assert (Hs : StronglySorted (fun a b => profit b <= profit a) (opportunities matches)).
  { apply Sorted_StronglySorted.
    - intros a b c Hab Hbc. by apply Qle_trans with (y := profit b).
    - apply Sorted_weaken with (R := fun a b => byProfitDesc a b <= 0).
      + intros a b. apply byProfitDesc_le.
      + apply Array_sort_Sorted. intros a b. rewrite !byProfitDesc_le.
        destruct (Qlt_le_dec (profit a) (profit b)); [right; by apply Qlt_le_weak|by left]. }
  unfold bestProfitPercent.
  destruct (opportunities matches) as [|h l]; [constructor|].
  apply StronglySorted_inv in Hs as [_ Hall].
  destruct (Hpp h (or_introl eq_refl)) as [Hh Hhpos].
  assert (Hne : Qeq_bool (profitPercent h) 0 = false).
  { destruct (Qeq_bool (profitPercent h) 0) eqn:E; [|done].
    apply Qeq_bool_iff in E. lra. }
  rewrite Hne. constructor; [apply Qle_refl|].
  apply List.Forall_forall. intros o Ho.
  destruct (Hpp o (or_intror Ho)) as [Hopp _].
  rewrite List.Forall_forall in Hall. specialize (Hall o Ho). cbv beta in Hall. lra.
Qed.

(** X3: which platform is called Polymarket and which Kalshi has no effect
    on the reported profit: exchanging the two quotes of a matched pair
    leaves the profit and the percentage unchanged. *)
Theorem swapping_platforms_keeps_profit (m : MarketMatch) :
  let swapped :=
    {| normalized_name := normalized_name m; game_date := game_date m;
       sport := sport m; polymarket := kalshi m; kalshi := polymarket m;
       price_diff_yes := price_diff_yes m |} in
  profit (toOpportunity swapped) == profit (toOpportunity m) /\
  profitPercent (toOpportunity swapped) == profitPercent (toOpportunity m).
Proof.
  intros swapped.
  assert (H1 : profit1 swapped == profit2 m) by (unfold profit1, profit2, cost1, cost2; simpl; ring).
  assert (H2 : profit2 swapped == profit1 m) by (unfold profit1, profit2, cost1, cost2; simpl; ring).
  assert (Hp : profit (toOpportunity swapped) == profit (toOpportunity m)).
  { change (Math_max (profit1 swapped) (profit2 swapped) ==
            Math_max (profit1 m) (profit2 m)).
    rewrite !Math_max_Qmax, H1, H2. apply Q.max_comm. }
  split; [done|].
  change (profit (toOpportunity swapped) * 100 == profit (toOpportunity m) * 100).
  by rewrite Hp.
Qed.

End WatchlistMore.

(** ** UnifiedMarketsTable *)

Section UnifiedMore.
Import Unified.

(** X5: the four bet-type tabs are mutually exclusive: a market passes
    at most one of the filters moneyline, spread, over/under and props. *)
Theorem bet_type_filters_exclusive (market : MarketItem) :
  (length (List.filter (fun f => matchesMarketType f market)
             [moneyline; spread; over_under; props]) <= 1)%nat.
Proof.
  unfold matchesMarketType. cbn [List.filter].
  generalize (orElse (market_type market) ""). intros t.
  destruct (String.eqb_spec t "game_winner") as [->|_]; [vm_compute; lia|].
  destruct (String.eqb_spec t "spread") as [->|_]; [vm_compute; lia|].
  destruct (String.eqb_spec t "over_under") as [->|_]; [vm_compute; lia|].
  destruct (startsWith t "player_prop"); simpl; lia.
Qed.

Lemma byGame_loop_sublist (markets : list MarketItem) (acc : list (string * MarketItem)) :
  exists kept,
    Map_values
      (fold_left
         (fun byGame market =>
            let key := gameKey market in
            if negb (Map_has byGame key) then Map_set byGame key market else byGame)
         markets acc) = Map_values acc ++ kept /\
    kept `sublist_of` markets.
Proof.
  revert acc. induction markets as [|x l IH]; intros acc.
  - exists []. by rewrite app_nil_r.
  - destruct (IH (if negb (Map_has acc (gameKey x))
                  then Map_set acc (gameKey x) x else acc)) as (kept & Hk & Hsub).
    destruct (Map_has acc (gameKey x)) eqn:Hx; cbn [negb] in Hk.
    + exists kept. split; [|by apply sublist_cons].
      etrans; [|exact Hk]. cbn [fold_left]. by rewrite Hx.
    + exists (x :: kept). split; [|by apply sublist_skip].
      etrans; [|etrans; [exact Hk|]].
      * cbn [fold_left]. by rewrite Hx.
      * by rewrite (Map_set_absent _ _ _ Hx), Map_values_app, <- app_assoc.
Qed.

Lemma deduped_sublist (f : MarketTypeFilter) (markets : list MarketItem) :
  deduped f markets `sublist_of` List.filter (matchesMarketType f) markets.
Proof.
  destruct (byGame_loop_sublist (List.filter (matchesMarketType f) markets) [])
    as (kept & Hk & Hsub).
  assert (E : deduped f markets = kept) by exact Hk.
  by rewrite E.
Qed.

Lemma NoDup_keys_by_filter {A : Type} (key : A -> string) (l : list A) :
  (forall k, (length (List.filter (fun s => String.eqb (key s) k) l) <= 1)%nat) ->
  NoDup (List.map key l).
Proof.
  induction l as [|x l IH]; intros H; simpl; constructor.
  - intros Hin%list_elem_of_In%in_map_iff. destruct Hin as (y & Hy & Hin).
    specialize (H (key x)). simpl in H. rewrite String.eqb_refl in H.
    assert (Hy' : In y (List.filter (fun s => String.eqb (key s) (key x)) l))
      by (apply filter_In; split; [done|by apply String.eqb_eq]).
    revert H Hy'. generalize (List.filter (fun s => String.eqb (key s) (key x)) l).
    intros [|z k] H Hy'; simpl in *; [done|lia].
  - apply IH. intros k. specialize (H k). simpl in H.
    destruct (String.eqb (key x) k); simpl in H; lia.
Qed.

Lemma deduped_keys_NoDup (f : MarketTypeFilter) (markets : list MarketItem) :
  NoDup (List.map gameKey (deduped f markets)).
Proof.
  apply NoDup_keys_by_filter. intros k. rewrite deduped_key.
  destruct (List.find _ _); simpl; lia.
Qed.

Lemma filter_all_pass {A : Type} (p : A -> bool) (l : list A) :
  (forall x, In x l -> p x = true) -> List.filter p l = l.
Proof.
  induction l as [|x l IH]; intros H; simpl; [done|].
  rewrite (H x (or_introl eq_refl)), IH; [done|]. intros y Hy. apply H. by right.
Qed.

Lemma deduped_pass (f : MarketTypeFilter) (markets : list MarketItem) :
  List.filter (matchesMarketType f) (deduped f markets) = deduped f markets.
Proof.
  apply filter_all_pass. intros m Hm%list_elem_of_In.
  pose proof (elem_of_sublist _ _ _ Hm (deduped_sublist f markets)) as Hin.
  apply list_elem_of_In, filter_In in Hin. tauto.
Qed.

Lemma byGame_loop_fresh (markets : list MarketItem) (acc : list (string * MarketItem)) :
  NoDup (List.map gameKey markets) ->
  (forall m, In m markets -> Map_has acc (gameKey m) = false) ->
  Map_values
    (fold_left
       (fun byGame market =>
          let key := gameKey market in
          if negb (Map_has byGame key) then Map_set byGame key market else byGame)
       markets acc) = Map_values acc ++ markets.
Proof.
  revert acc. induction markets as [|x l IH]; intros acc Hnd Hfresh.
  - by rewrite app_nil_r.
  - cbn [fold_left]. simpl in Hnd. apply NoDup_cons in Hnd as [Hx Hnd].
    rewrite (Hfresh x (or_introl eq_refl)). cbn [negb].
    rewrite (Map_set_absent _ _ _ (Hfresh x (or_introl eq_refl))).
    etrans; [apply (IH _ Hnd)|].
    + intros m Hm. rewrite Map_has_app, (Hfresh m (or_intror Hm)). simpl.
      rewrite orb_false_r. apply String.eqb_neq. intros E. apply Hx.
      rewrite E. apply list_elem_of_In, in_map, Hm.
    + by rewrite Map_values_app, <- app_assoc.
Qed.

(** X6: deduplication keeps the input order and invents nothing - its result
    is a subsequence of the markets that pass the filter - and no two of
    the markets it keeps have the same key. *)
Theorem deduped_is_subsequence_with_distinct_keys (f : MarketTypeFilter)
    (markets : list MarketItem) :
  deduped f markets `sublist_of` List.filter (matchesMarketType f) markets /\
  NoDup (List.map gameKey (deduped f markets)).
Proof. split; [apply deduped_sublist|apply deduped_keys_NoDup]. Qed.

(** X7: deduplication is idempotent: the deduplicated list, deduplicated
    again under the same filter, is unchanged. *)
Theorem deduped_idempotent (f : MarketTypeFilter) (markets : list MarketItem) :
  deduped f (deduped f markets) = deduped f markets.
Proof.
  unfold deduped at 1. rewrite deduped_pass. unfold byGame.
  rewrite byGame_loop_fresh; [done|apply deduped_keys_NoDup|done].
Qed.

(** *** The rows the two loops build *)

Lemma addRemaining_loop_spec (kalshis : list MarketItem) (st : Locals) :
  fold_left addRemaining kalshis st =
  {| unifiedMarkets :=
       unifiedMarkets st ++
       List.map kalshiRow
         (List.filter (fun k => negb (bool_decide (id k ∈ usedKalshiIds st))) kalshis);
     usedKalshiIds := usedKalshiIds st |}.
Proof.
  revert st. induction kalshis as [|k l IH]; intros st; cbn [fold_left List.filter].
  - destruct st. simpl. by rewrite app_nil_r.
  - rewrite IH. unfold addRemaining. destruct (bool_decide (id k ∈ usedKalshiIds st));
      cbn [negb unifiedMarkets usedKalshiIds List.map]; [done|].
    by rewrite <- app_assoc.
Qed.

(** After the first loop over [polys]: there is one row per market of
    [polys], in order, each with its Polymarket side; a pair joins markets
    with the same pair key; and a row left without a Kalshi side has seen
    every Kalshi market of its key taken. *)
Lemma pairOne_loop_rows (dedupedKalshi polys : list MarketItem) :
  let st := fold_left (pairOne dedupedKalshi) polys
              {| unifiedMarkets := []; usedKalshiIds := ∅ |} in
  omap polymarket (unifiedMarkets st) = polys /\
  Forall (fun r => polymarket r <> None) (unifiedMarkets st) /\
  Forall (fun pk => pairKey pk.1 = pairKey pk.2 /\ In pk.1 polys /\ In pk.2 dedupedKalshi)
    (matchedPairs (unifiedMarkets st)) /\
  Forall (fun r => kalshi r = None ->
            forall p k, polymarket r = Some p -> In k dedupedKalshi ->
                        pairKey k = pairKey p -> id k ∈ usedKalshiIds st)
    (unifiedMarkets st).
Proof.
  induction polys as [|poly polys IH] using rev_ind; cbv zeta.
  - simpl. by repeat split.
  - rewrite fold_left_app. cbn [fold_left]. cbv zeta in IH.
    destruct IH as (Hpoly & Hsome & Hpairs & Hfree).
    set (st := fold_left (pairOne dedupedKalshi) polys _) in *.
    unfold pairOne. cbn [unifiedMarkets usedKalshiIds].
    rewrite matchedPairs_app, omap_app, Hpoly.
    assert (Hpairs' : Forall
              (fun pk => pairKey pk.1 = pairKey pk.2 /\ In pk.1 (polys ++ [poly]) /\
                         In pk.2 dedupedKalshi)
              (matchedPairs (unifiedMarkets st))).
    { eapply Forall_impl; [exact Hpairs|]. intros pk (? & ? & ?).
      repeat split; [done| |done]. apply in_or_app. by left. }
    split; [done|]. split; [apply Forall_app; split; [done|by repeat constructor]|].
    destruct (List.find _ dedupedKalshi) as [k|] eqn:Hfind.
    + apply find_some in Hfind as [Hin [Hkey _]%isMatchFor_unused].
      split.
      * apply Forall_app. split; [done|]. cbn. constructor; [|constructor].
        simpl. repeat split; [done| |done]. apply in_or_app. right. by left.
      * apply Forall_app. split; [|by repeat constructor].
        eapply Forall_impl; [exact Hfree|]. intros r Hr Hnone p k' Hp Hk' Hkk.
        apply elem_of_union_r. by eapply Hr.
    + split; [cbn; by rewrite app_nil_r|].
      apply Forall_app. split; [done|]. constructor; [|constructor].
      intros _ p k [= <-] Hk Hkk.
      pose proof (find_none _ _ Hfind k Hk) as Hno. unfold isMatchFor in Hno.
      apply String.eqb_eq in Hkk. rewrite Hkk in Hno. simpl in Hno.
      apply negb_false_iff, bool_decide_eq_true in Hno. done.
Qed.

(** The rows before the final sort. *)
Lemma paired_rows (dedupedPoly dedupedKalshi : list MarketItem) :
  let st1 := fold_left (pairOne dedupedKalshi) dedupedPoly
               {| unifiedMarkets := []; usedKalshiIds := ∅ |} in
  unifiedMarkets (paired dedupedPoly dedupedKalshi) =
  unifiedMarkets st1 ++
  List.map kalshiRow
    (List.filter (fun k => negb (bool_decide (id k ∈ usedKalshiIds st1))) dedupedKalshi).
Proof. cbv zeta. unfold paired. by rewrite addRemaining_loop_spec. Qed.

Lemma omap_kalshiRow_polymarket (l : list MarketItem) :
  omap polymarket (List.map kalshiRow l) = [].
Proof. by induction l. Qed.

Lemma omap_kalshiRow_kalshi (l : list MarketItem) :
  omap kalshi (List.map kalshiRow l) = l.
Proof. induction l as [|k l IH]; [done|]. cbn. by rewrite IH. Qed.

Lemma table_In (localeCompare : string -> string -> number)
    (polyMarkets kalshiMarkets : list MarketItem) (f : MarketTypeFilter)
    (r : UnifiedMarket) :
  In r (UnifiedMarketsTable localeCompare polyMarkets kalshiMarkets f) <->
  In r (unifiedMarkets (paired (deduped f polyMarkets) (deduped f kalshiMarkets))).
Proof. unfold UnifiedMarketsTable. cbv zeta. apply Array_sort_In. Qed.

(** X8: a row that pairs two markets joins a Polymarket market and a
    Kalshi market that survived deduplication and have the same name, game
    date and sport ([pairKey]). *)
Theorem pairs_share_name_date_sport (localeCompare : string -> string -> number)
    (polyMarkets kalshiMarkets : list MarketItem) (f : MarketTypeFilter) :
  Forall (fun pk =>
            pairKey pk.1 = pairKey pk.2 /\
            In pk.1 (deduped f polyMarkets) /\
            In pk.2 (deduped f kalshiMarkets))
    (matchedPairs (UnifiedMarketsTable localeCompare polyMarkets kalshiMarkets f)).
Proof.
  rewrite UnifiedMarketsTable_pairs.
  apply (pairOne_loop_rows (deduped f kalshiMarkets) (deduped f polyMarkets)).
Qed.

(** X9: no match is missed: a row with only a Polymarket market and a row
    with only a Kalshi market never have the same name, game date and
    sport. *)
Theorem no_missed_match (localeCompare : string -> string -> number)
    (polyMarkets kalshiMarkets : list MarketItem) (f : MarketTypeFilter)
    (r1 r2 : UnifiedMarket) (p k : MarketItem) :
  In r1 (UnifiedMarketsTable localeCompare polyMarkets kalshiMarkets f) ->
  In r2 (UnifiedMarketsTable localeCompare polyMarkets kalshiMarkets f) ->
  polymarket r1 = Some p -> kalshi r1 = None ->
  polymarket r2 = None -> kalshi r2 = Some k ->
  pairKey p <> pairKey k.
Proof.
  rewrite !table_In, paired_rows. cbv zeta.
  pose proof (pairOne_loop_rows (deduped f kalshiMarkets) (deduped f polyMarkets))
    as (_ & Hsome & _ & Hfree). cbv zeta in Hsome, Hfree.
  set (st1 := fold_left _ _ _) in *.
  rewrite List.Forall_forall in Hsome, Hfree.
  intros [H1|H1]%in_app_or [H2|H2]%in_app_or Hp1 Hk1 Hp2 Hk2 Hkey.
  - by apply (Hsome r2 H2).
  - apply in_map_iff in H2 as (k' & <- & [Hk' Hunused]%filter_In).
    simpl in Hk2. injection Hk2 as ->.
    apply negb_true_iff, bool_decide_eq_false in Hunused. apply Hunused.
    by apply (Hfree r1 H1 Hk1 p k Hp1 Hk').
  - by apply (Hsome r2 H2).
  - apply in_map_iff in H1 as (k' & <- & _). done.
Qed.

Lemma no_missed_match_witness :
  pairKey Samples.poly_game <> pairKey Samples.kalshi_knicks.
Proof.
  apply (no_missed_match Samples.codeUnitCompare [Samples.poly_game]
           [Samples.kalshi_knicks] moneyline
           (polyRow Samples.poly_game None) (kalshiRow Samples.kalshi_knicks)).
  - vm_compute. auto.
  - vm_compute. auto.
  - reflexivity.
  - reflexivity.
  - reflexivity.
  - reflexivity.
Defined.

(** X10: every Polymarket market that survives deduplication is on exactly
    one row of the table. *)
Theorem every_polymarket_market_has_one_row
    (localeCompare : string -> string -> number)
    (polyMarkets kalshiMarkets : list MarketItem) (f : MarketTypeFilter) :
  omap polymarket (UnifiedMarketsTable localeCompare polyMarkets kalshiMarkets f) ≡ₚ
  deduped f polyMarkets.
Proof.
  unfold UnifiedMarketsTable. cbv zeta. rewrite Array_sort_perm, paired_rows.
  cbv zeta. rewrite omap_app, omap_kalshiRow_polymarket, app_nil_r.
  by rewrite (proj1 (pairOne_loop_rows (deduped f kalshiMarkets) (deduped f polyMarkets))).
Qed.

Lemma NoDup_map_inj {A B : Type} (g : A -> B) (l : list A) (x y : A) :
  NoDup (List.map g l) -> In x l -> In y l -> g x = g y -> x = y.
Proof.
  induction l as [|a l IH]; simpl; [done|].
  intros [Ha Hnd]%NoDup_cons [->|Hx] [->|Hy] E; try done.
  - exfalso. apply Ha. rewrite E. by apply list_elem_of_In, in_map.
  - exfalso. apply Ha. rewrite <- E. by apply list_elem_of_In, in_map.
  - by apply IH.
Qed.

Lemma NoDup_map_filter {A B : Type} (g : A -> B) (p : A -> bool) (l : list A) :
  NoDup (List.map g l) -> NoDup (List.map g (List.filter p l)).
Proof.
  induction l as [|a l IH]; simpl; [done|].
  intros [Ha Hnd]%NoDup_cons. destruct (p a); simpl; [|by apply IH].
  constructor; [|by apply IH].
  intros Hin%list_elem_of_In%in_map_iff. destruct Hin as (y & Hy & [Hin _]%filter_In).
  apply Ha. rewrite <- Hy. by apply list_elem_of_In, in_map.
Qed.

Lemma filter_split_perm {A : Type} (p : A -> bool) (l : list A) :
  l ≡ₚ List.filter p l ++ List.filter (fun x => negb (p x)) l.
Proof.
  induction l as [|a l IH]; simpl; [done|].
  destruct (p a); simpl.
  - by constructor.
  - rewrite <- Permutation_middle. by constructor.
Qed.

Lemma omap_kalshi_rows (rows : list UnifiedMarket) :
  Forall (fun r => polymarket r <> None) rows ->
  omap kalshi rows = snd <$> matchedPairs rows.
Proof.
  induction 1 as [|r rows Hr _ IH]; [done|].
  unfold matchedPairs in *. cbn. unfold matchedPair at 1.
  destruct (polymarket r); [|done]. destruct (kalshi r); cbn; by rewrite IH.
Qed.

Lemma length_omap_polymarket (rows : list UnifiedMarket) :
  Forall (fun r => polymarket r <> None) rows ->
  length (omap polymarket rows) = length rows.
Proof.
  induction 1 as [|r rows Hr _ IH]; [done|]. cbn.
  destruct (polymarket r); [|done]. cbn. by rewrite IH.
Qed.

Lemma deduped_ids_NoDup (f : MarketTypeFilter) (markets : list MarketItem) :
  NoDup (List.map id markets) -> NoDup (List.map id (deduped f markets)).
Proof.
  intros Hnd. apply (NoDup_map_filter id (matchesMarketType f)) in Hnd.
  eapply sublist_NoDup; [exact Hnd|].
  apply (fmap_sublist id), deduped_sublist.
Qed.

(** The Kalshi markets whose id is marked as used are the Kalshi sides of
    the pairs, when no two Kalshi markets share an id. *)
Lemma used_are_paired (dedupedKalshi dedupedPoly : list MarketItem) :
  NoDup (List.map id dedupedKalshi) ->
  let st1 := fold_left (pairOne dedupedKalshi) dedupedPoly
               {| unifiedMarkets := []; usedKalshiIds := ∅ |} in
  List.filter (fun k => bool_decide (id k ∈ usedKalshiIds st1)) dedupedKalshi ≡ₚ
  snd <$> matchedPairs (unifiedMarkets st1).
Proof.
  intros Hids. cbv zeta.
  pose proof (pairOne_loop_invariant dedupedKalshi dedupedPoly) as (_ & Hnd & Hused).
  pose proof (pairOne_loop_rows dedupedKalshi dedupedPoly) as (_ & _ & Hpairs & _).
  cbv zeta in Hnd, Hused, Hpairs. set (st1 := fold_left _ _ _) in *.
  rewrite List.Forall_forall in Hpairs.
  apply NoDup_Permutation.
  - apply (NoDup_fmap_1 id). change (NoDup (List.map id (List.filter
      (fun k => bool_decide (id k ∈ usedKalshiIds st1)) dedupedKalshi))).
    by apply NoDup_map_filter.
  - apply (NoDup_fmap_1 id). by rewrite <- list_fmap_compose.
  - intros k. rewrite list_elem_of_In, filter_In, bool_decide_eq_true,
      list_elem_of_fmap. split.
    + intros [Hk Hu]. apply Hused, list_elem_of_fmap in Hu as (pk & Hid & Hpk).
      exists pk. split; [|done].
      destruct (Hpairs pk) as (_ & _ & Hin); [by apply list_elem_of_In|].
      by apply (NoDup_map_inj id dedupedKalshi).
    + intros (pk & -> & Hpk).
      destruct (Hpairs pk) as (_ & _ & Hin); [by apply list_elem_of_In|].
      split; [done|]. apply Hused, list_elem_of_fmap. by exists pk.
Qed.

(** X11: when no two Kalshi markets have the same id, every Kalshi market
    that survives deduplication is on exactly one row of the table, and the
    two counts of the header add up: rows plus pairs are the Polymarket
    markets plus the Kalshi markets. *)
Theorem every_kalshi_market_has_one_row (localeCompare : string -> string -> number)
    (polyMarkets kalshiMarkets : list MarketItem) (f : MarketTypeFilter) :
  NoDup (List.map id kalshiMarkets) ->
  let table := UnifiedMarketsTable localeCompare polyMarkets kalshiMarkets f in
  omap kalshi table ≡ₚ deduped f kalshiMarkets /\
  (length table + length (matchedPairs table) =
   length (deduped f polyMarkets) + length (deduped f kalshiMarkets))%nat.
Proof.
  intros Hids%(deduped_ids_NoDup f). cbv zeta.
  pose proof (used_are_paired _ (deduped f polyMarkets) Hids) as Hused.
  pose proof (pairOne_loop_rows (deduped f kalshiMarkets) (deduped f polyMarkets))
    as (Hpoly & Hsome & _ & _).
  pose proof (UnifiedMarketsTable_pairs localeCompare polyMarkets kalshiMarkets f)
    as Hpairs.
  cbv zeta in Hused, Hpoly, Hsome.
  assert (Htable : UnifiedMarketsTable localeCompare polyMarkets kalshiMarkets f ≡ₚ
            unifiedMarkets (paired (deduped f polyMarkets) (deduped f kalshiMarkets)))
    by (unfold UnifiedMarketsTable; cbv zeta; apply Array_sort_perm).
  rewrite paired_rows in Htable. cbv zeta in Htable.
  set (st1 := fold_left _ _ _) in *.
  pose proof (filter_split_perm (fun k => bool_decide (id k ∈ usedKalshiIds st1))
                (deduped f kalshiMarkets)) as Hsplit.
  split.
  - rewrite Htable, omap_app, omap_kalshiRow_kalshi, (omap_kalshi_rows _ Hsome).
    by rewrite <- Hused, <- Hsplit.
  - apply Permutation_length in Htable, Hpairs, Hsplit, Hused.
    rewrite length_app, length_map in Htable. rewrite length_app in Hsplit.
    rewrite length_fmap in Hused.
    pose proof (length_omap_polymarket _ Hsome) as Hlen. rewrite Hpoly in Hlen.
    lia.
Qed.

Lemma every_kalshi_market_has_one_row_witness :
  omap kalshi (UnifiedMarketsTable Samples.codeUnitCompare [Samples.poly_game]
                 [Samples.kalshi_lakers; Samples.kalshi_knicks] moneyline)
  ≡ₚ [Samples.kalshi_lakers; Samples.kalshi_knicks].
Proof.
  apply (every_kalshi_market_has_one_row Samples.codeUnitCompare [Samples.poly_game]
           [Samples.kalshi_lakers; Samples.kalshi_knicks] moneyline).
  apply (bool_decide_unpack _). vm_compute. reflexivity.
Defined.

End UnifiedMore.

(** ** Search boxes *)

Section SearchMore.

Lemma append_assoc (a b c : string) : (a +:+ b) +:+ c = a +:+ b +:+ c.
Proof. induction a as [|x a IH]; [done|]. by rewrite !append_cons, IH. Qed.

Lemma lowerAscii_idempotent (c : ascii) : lowerAscii (lowerAscii c) = lowerAscii c.
Proof. destruct c as [[] [] [] [] [] [] [] []]; reflexivity. Qed.

Lemma toLowerCase_idempotent (s : string) : toLowerCase (toLowerCase s) = toLowerCase s.
Proof.
  induction s as [|c s IH]; [done|]. simpl. by rewrite lowerAscii_idempotent, IH.
Qed.

Lemma toLowerCase_app (a b : string) :
  toLowerCase (a +:+ b) = toLowerCase a +:+ toLowerCase b.
Proof.
  induction a as [|c a IH]; [done|]. rewrite append_cons. simpl.
  by rewrite append_cons, IH.
Qed.

Lemma toLowerCase_empty (s : string) : toLowerCase s = ""%string <-> s = ""%string.
Proof. by destruct s. Qed.

Lemma eqb_empty_toLowerCase (s : string) :
  String.eqb (toLowerCase s) "" = String.eqb s "".
Proof. by destruct s. Qed.

Lemma occurs_inside (pre q post s : string) :
  occurs (pre +:+ q +:+ post) s -> occurs q s.
Proof.
  intros (a & b & ->). exists (a +:+ pre), (post +:+ b).
  by rewrite !append_assoc.
Qed.

Lemma includes_inside (pre q post s : string) :
  includes s (pre +:+ q +:+ post) = true -> includes s q = true.
Proof. rewrite !includes_spec. apply occurs_inside. Qed.

Lemma filter_sublist_impl {A : Type} (p q : A -> bool) (l : list A) :
  (forall x, p x = true -> q x = true) ->
  List.filter p l `sublist_of` List.filter q l.
Proof.
  intros Hpq. induction l as [|x l IH]; simpl; [constructor|].
  destruct (p x) eqn:Hp.
  - rewrite (Hpq x Hp). by constructor.
  - destruct (q x); [by constructor|done].
Qed.

Lemma append_empty_inv (a b : string) : a +:+ b = ""%string -> a = ""%string /\ b = ""%string.
Proof. destruct a; [done|]. by rewrite append_cons. Qed.

(** X12: the dashboard's search ignores the letter case of the query: a
    query and its lower-case form keep the same opportunities. *)
Theorem dashboard_search_ignores_query_case (data : option Dashboard.ApiResponse)
    (searchQuery : string) :
  Dashboard.filteredOpportunities data (toLowerCase searchQuery) =
  Dashboard.filteredOpportunities data searchQuery.
Proof.
  destruct data as [d|]; [|done]. unfold Dashboard.filteredOpportunities.
  apply filter_ext. intros opp. unfold Dashboard.matchesSearch.
  by rewrite eqb_empty_toLowerCase, toLowerCase_idempotent.
Qed.

Lemma dashboard_matchesSearch_inside (pre q post : string)
    (opp : Dashboard.ArbitrageOpportunity) :
  Dashboard.matchesSearch (pre +:+ q +:+ post) opp = true ->
  Dashboard.matchesSearch q opp = true.
Proof.
  unfold Dashboard.matchesSearch.
  destruct (String.eqb_spec q "") as [|Hq]; [done|].
  destruct (String.eqb_spec (pre +:+ q +:+ post) "") as [E|_].
  { apply append_empty_inv in E as [_ E]. by apply append_empty_inv in E as [E _]. }
  cbv zeta. rewrite !toLowerCase_app, !orb_true_iff.
  unfold Dashboard.fieldIncludes.
  intros [[[[H|H]|H]|H]|H].
  - do 4 left. by eapply includes_inside.
  - do 3 left. right. by eapply includes_inside.
  - do 2 left. right. by eapply includes_inside.
  - left. right. destruct (Dashboard.league opp); [|done]. by eapply includes_inside.
  - right. destruct (Dashboard.team opp); [|done]. by eapply includes_inside.
Qed.

Lemma dashboard_filter_narrows (data : option Dashboard.ApiResponse)
    (pre q post : string) :
  Dashboard.filteredOpportunities data (pre +:+ q +:+ post) `sublist_of`
  Dashboard.filteredOpportunities data q.
Proof.
  destruct data as [d|]; [|constructor]. unfold Dashboard.filteredOpportunities.
  apply filter_sublist_impl. intros opp. apply dashboard_matchesSearch_inside.
Qed.

(** X13: on ASCII text, typing more never adds results: when the query and
    the searched texts of the served opportunities are ASCII, the
    opportunities kept for a query that contains another query are among
    those kept for the shorter one, in the same order. *)
Theorem dashboard_search_narrows (data : Dashboard.ApiResponse)
    (pre q post : string) :
  isAscii (pre +:+ q +:+ post) = true ->
  Forall (fun opp => Dashboard.searchedTextIsAscii opp = true)
    (Dashboard.opportunities data) ->
  Dashboard.filteredOpportunities (Some data) (pre +:+ q +:+ post) `sublist_of`
  Dashboard.filteredOpportunities (Some data) q.
Proof. intros _ _. apply dashboard_filter_narrows. Qed.

Lemma dashboard_search_narrows_witness :
  Dashboard.filteredOpportunities
    (Some {| Dashboard.opportunities := [Samples.served] |}) ("" +:+ "Lak" +:+ "ers")
  `sublist_of`
  Dashboard.filteredOpportunities
    (Some {| Dashboard.opportunities := [Samples.served] |}) "Lak".
Proof.
  apply (dashboard_search_narrows {| Dashboard.opportunities := [Samples.served] |}
           "" "Lak" "ers").
  - vm_compute. reflexivity.
  - repeat constructor.
Defined.

End SearchMore.

(** ** AllMarketsTab *)

Section AllMarketsMore.
Import Unified AllMarkets.

Lemma Set_add_In (s : list string) (x y : string) :
  In y (Set_add s x) <-> In y s \/ y = x.
Proof.
  unfold Set_add. destruct (existsb (String.eqb x) s) eqn:E.
  - split; [by left|]. intros [H| ->]; [done|].
    apply existsb_exists in E as (z & Hz & ->%String.eqb_eq). done.
  - rewrite in_app_iff. simpl. intuition.
Qed.

Lemma Set_add_NoDup (s : list string) (x : string) : NoDup s -> NoDup (Set_add s x).
Proof.
  intros Hnd. unfold Set_add. destruct (existsb (String.eqb x) s) eqn:E; [done|].
  apply NoDup_app. split; [done|]. split; [|apply NoDup_singleton].
  intros y Hy ->%list_elem_of_singleton.
  assert (existsb (String.eqb x) s = true); [|congruence].
  apply existsb_exists. exists x. split; [by apply list_elem_of_In|apply String.eqb_refl].
Qed.

(** The lower-cased sport of a market, when it has one. *)
Lemma addSport_In (acc : list string) (m : MarketItem) (y : string) :
  In y (addSport acc m) <->
  In y acc \/ exists s, sport m = Some s /\ s <> ""%string /\ y = toLowerCase s.
Proof.
  unfold addSport. destruct (sport m) as [s|].
  - destruct (String.eqb_spec s "") as [->|Hne].
    + split; [by left|]. intros [H|(s & [= <-] & Hs & _)]; done.
    + rewrite Set_add_In. split; intros [H|H]; try by left.
      * right. by exists s.
      * right. destruct H as (s' & [= <-] & _ & ->). done.
  - split; [by left|]. intros [H|(s & Hs & _)]; done.
Qed.

Lemma addSport_NoDup (acc : list string) (m : MarketItem) :
  NoDup acc -> NoDup (addSport acc m).
Proof.
  intros Hnd. unfold addSport. destruct (sport m) as [s|]; [|done].
  destruct (String.eqb s ""); [done|]. by apply Set_add_NoDup.
Qed.

Lemma addSport_loop (markets : list MarketItem) (acc : list string) (y : string) :
  (NoDup acc -> NoDup (fold_left addSport markets acc)) /\
  (In y (fold_left addSport markets acc) <->
   In y acc \/
   exists m s, In m markets /\ sport m = Some s /\ s <> ""%string /\ y = toLowerCase s).
Proof.
  revert acc. induction markets as [|m l IH]; intros acc; cbn [fold_left].
  - split; [done|]. split; [by left|]. intros [H|(m & s & [] & _)]. done.
  - destruct (IH (addSport acc m)) as [IH1 IH2]. split.
    + intros Hnd. by apply IH1, addSport_NoDup.
    + rewrite IH2, addSport_In. split.
      * intros [[H|(s & Hs)]|(m' & s & Hm' & Hs)]; [by left| |].
        -- right. exists m, s. split; [by left|done].
        -- right. exists m', s. split; [by right|done].
      * intros [H|(m' & s & [->|Hm'] & Hs)]; [by do 2 left| |].
        -- left. right. by exists s.
        -- right. by exists m', s.
Qed.

Lemma defaultCompare_total (a b : string) :
  defaultCompare a b <= 0 \/ defaultCompare b a <= 0.
Proof.
  unfold defaultCompare. rewrite (String.compare_antisym b a).
  destruct (String.compare a b); simpl; (by left) || (by right).
Qed.

Lemma sportsList_In (polyMarkets kalshiMarkets : list MarketItem) (chip : string) :
  In chip (sportsList polyMarkets kalshiMarkets) <->
  exists m s, In m (polyMarkets ++ kalshiMarkets) /\
              sport m = Some s /\ s <> ""%string /\ chip = toLowerCase s.
Proof.
  unfold sportsList, allSports. rewrite Array_sort_In.
  rewrite (proj2 (addSport_loop kalshiMarkets _ chip)).
  rewrite (proj2 (addSport_loop polyMarkets [] chip)).
  split.
  - intros [[[]|(m & s & Hm & Hs)]|(m & s & Hm & Hs)]; exists m, s;
      (split; [apply in_or_app; auto|done]).
  - intros (m & s & [Hm|Hm]%in_app_or & Hs).
    + left. right. by exists m, s.
    + right. by exists m, s.
Qed.

(** X14: the sport chips: every sport of a Polymarket or Kalshi market
    appears once, in lower case, whatever the case it is written in and
    however many markets have it; the chips are in ascending code-unit
    order, and there are no others. *)
Theorem sport_chips (polyMarkets kalshiMarkets : list MarketItem) :
  NoDup (sportsList polyMarkets kalshiMarkets) /\
  Sorted (fun a b => defaultCompare a b <= 0) (sportsList polyMarkets kalshiMarkets) /\
  forall chip,
    In chip (sportsList polyMarkets kalshiMarkets) <->
    exists m s, In m (polyMarkets ++ kalshiMarkets) /\
                sport m = Some s /\ s <> ""%string /\ chip = toLowerCase s.
Proof.
  split; [|split].
  - unfold sportsList, allSports. rewrite Array_sort_perm.
    apply (addSport_loop kalshiMarkets _ ""%string).
    apply (addSport_loop polyMarkets [] ""%string). constructor.
  - apply Array_sort_Sorted, defaultCompare_total.
  - apply sportsList_In.
Qed.

(** X15: a sport chip is never empty-handed: with no search text, selecting
    a chip of the list keeps at least one Polymarket or Kalshi market. *)
Theorem sport_chip_selects_a_market (polyMarkets kalshiMarkets : list MarketItem)
    (chip : string) :
  In chip (sportsList polyMarkets kalshiMarkets) ->
  filteredMarkets "" (Some chip) polyMarkets ++
  filteredMarkets "" (Some chip) kalshiMarkets <> [].
Proof.
  intros (m & s & Hm & Hs & Hne & ->)%sportsList_In.
  assert (Hkeep : (matchesSearch "" m && matchesSport (Some (toLowerCase s)) m) = true).
  { unfold matchesSearch, matchesSport. rewrite Hs, !String.eqb_refl.
    simpl. apply orb_true_r. }
  assert (Hin : In m (filteredMarkets "" (Some (toLowerCase s)) polyMarkets ++
                      filteredMarkets "" (Some (toLowerCase s)) kalshiMarkets)).
  { unfold filteredMarkets. apply in_app_or in Hm as [Hm|Hm]; apply in_or_app;
      [left|right]; by apply filter_In. }
  intros E. rewrite E in Hin. done.
Qed.

Lemma sport_chip_selects_a_market_witness :
  filteredMarkets "" (Some "nba"%string) [Samples.poly_game] ++
  filteredMarkets "" (Some "nba"%string) [Samples.kalshi_knicks] <> [].
Proof.
  apply (sport_chip_selects_a_market [Samples.poly_game] [Samples.kalshi_knicks] "nba").
  vm_compute. auto.
Defined.

Lemma length_append (a b : string) :
  String.length (a +:+ b) = (String.length a + String.length b)%nat.
Proof. induction a as [|c a IH]; [done|]. rewrite append_cons. simpl. by rewrite IH. Qed.

Lemma length_substring_le (n m : nat) (s : string) :
  (String.length (String.substring n m s) <= m)%nat.
Proof.
  revert n m. induction s as [|c s IH]; intros [|n] [|m]; simpl; try lia.
  - specialize (IH 0%nat m). lia.
  - apply (IH n 0%nat).
  - apply (IH n (S m)).
Qed.

(** X16: a display name is at most 63 characters long - 60 of the name and
    the ellipsis - unless it is the normalized name, which is shown in
    full. *)
Theorem display_name_is_short_or_normalized (market : MarketItem) :
  (String.length (getDisplayName market) <= 63)%nat \/
  normalized_name market = Some (getDisplayName market).
Proof.
  unfold getDisplayName.
  assert (Hfallback :
    (String.length
       (if (60 <? String.length (name market))%nat
        then String.substring 0 60 (name market) +:+ "..."
        else name market) <= 63)%nat).
  { destruct (Nat.ltb_spec 60 (String.length (name market))).
    - rewrite length_append. pose proof (length_substring_le 0 60 (name market)).
      simpl. lia.
    - lia. }
  destruct (normalized_name market) as [n|]; [|by left].
  destruct (negb (String.eqb n "") && negb (String.eqb n (name market)));
    [by right|by left].
Qed.

Lemma markets_matchesSearch_inside (pre q post : string) (m : MarketItem) :
  matchesSearch (pre +:+ q +:+ post) m = true -> matchesSearch q m = true.
Proof.
  unfold matchesSearch.
  destruct (String.eqb_spec q "") as [|Hq]; [done|].
  destruct (String.eqb_spec (pre +:+ q +:+ post) "") as [E|_].
  { apply append_empty_inv in E as [_ E]. by apply append_empty_inv in E as [E _]. }
  rewrite !toLowerCase_app. simpl. rewrite !orb_true_iff.
  intros [H|H].
  - left. by eapply includes_inside.
  - right. destruct (normalized_name m); [|done].
    apply andb_true_iff in H as [-> H]. simpl. by eapply includes_inside.
Qed.

(** X17: in the markets tab, too, on ASCII text typing more never adds
    markets: when the query and the names of the markets are ASCII, then
    under the same sport chip the markets kept for a query that contains
    another query are among those kept for the shorter one, in the same
    order. *)
Theorem markets_search_narrows (selectedSport : option string)
    (markets : list MarketItem) (pre q post : string) :
  isAscii (pre +:+ q +:+ post) = true ->
  Forall (fun m => namesAreAscii m = true) markets ->
  filteredMarkets (pre +:+ q +:+ post) selectedSport markets `sublist_of`
  filteredMarkets q selectedSport markets.
Proof.
  intros _ _. unfold filteredMarkets. apply filter_sublist_impl. intros m.
  rewrite !andb_true_iff. intros [H1 H2]. split; [|done].
  by eapply markets_matchesSearch_inside.
Qed.

Lemma markets_search_narrows_witness :
  filteredMarkets ("" +:+ "Lak" +:+ "ers") (Some "nba"%string)
    [Samples.poly_game; Samples.kalshi_knicks]
  `sublist_of`
  filteredMarkets "Lak" (Some "nba"%string) [Samples.poly_game; Samples.kalshi_knicks].
Proof.
  apply (markets_search_narrows (Some "nba"%string)
           [Samples.poly_game; Samples.kalshi_knicks] "" "Lak" "ers").
  - vm_compute. reflexivity.
  - repeat constructor.
Defined.

End AllMarketsMore.

(** ** More on the watchlist and on the pairs *)

Section ListingMore.
Import Watchlist.

Lemma map_filter_comm {A B : Type} (g : A -> B) (p : B -> bool) (l : list A) :
  List.filter p (List.map g l) = List.map g (List.filter (fun x => p (g x)) l).
Proof.
  induction l as [|x l IH]; simpl; [done|]. destruct (p (g x)); simpl; by rewrite IH.
Qed.

(** X18: every profitable matched pair is listed exactly once, and nothing
    else is: the pairs behind the listed opportunities are the pairs whose
    better strategy has a positive profit, each as often as it was served. *)
Theorem each_profitable_pair_listed_once (matches : list MarketMatch) :
  List.map match_ (opportunities matches) ≡ₚ
  List.filter (fun m => isProfitable (toOpportunity m)) matches.
Proof.
  unfold opportunities. rewrite Array_sort_perm, map_filter_comm, List.map_map.
  simpl. by rewrite List.map_id.
Qed.

End ListingMore.

Section PairTypesMore.
Import Unified.

(** X20: under the moneyline, spread or over/under tab a row never pairs
    markets of different kinds: the two markets of a pair have the same
    market type. *)
Theorem pairs_share_market_type (localeCompare : string -> string -> number)
    (polyMarkets kalshiMarkets : list MarketItem) (f : MarketTypeFilter) :
  f = moneyline \/ f = spread \/ f = over_under ->
  Forall (fun pk => orElse (market_type pk.1) "" = orElse (market_type pk.2) "")
    (matchedPairs (UnifiedMarketsTable localeCompare polyMarkets kalshiMarkets f)).
Proof.
  intros Hf. rewrite UnifiedMarketsTable_pairs.
  pose proof (pairOne_loop_rows (deduped f kalshiMarkets) (deduped f polyMarkets))
    as (_ & _ & Hpairs & _). cbv zeta in Hpairs.
  eapply Forall_impl; [exact Hpairs|]. intros [p k] (_ & Hp & Hk). simpl in *.
  assert (Hpass : forall markets m, In m (deduped f markets) ->
                    matchesMarketType f m = true).
  { intros markets m Hm%list_elem_of_In.
    pose proof (elem_of_sublist _ _ _ Hm (deduped_sublist f markets)) as Hin.
    apply list_elem_of_In, filter_In in Hin. tauto. }
  apply Hpass in Hp, Hk. unfold matchesMarketType in Hp, Hk.
  destruct Hf as [->|[->| ->]]; apply String.eqb_eq in Hp, Hk; congruence.
Qed.

Lemma pairs_share_market_type_witness :
  Forall (fun pk => orElse (market_type pk.1) "" = orElse (market_type pk.2) "")
    (matchedPairs
       (UnifiedMarketsTable Samples.codeUnitCompare [Samples.poly_game]
          [Samples.kalshi_lakers; Samples.kalshi_celtics] moneyline)).
Proof.
  apply (pairs_share_market_type Samples.codeUnitCompare [Samples.poly_game]
           [Samples.kalshi_lakers; Samples.kalshi_celtics] moneyline).
  left. reflexivity.
Defined.

End PairTypesMore.

(** * WatchlistView on binary64: ties *)

Section Doubles.
Import Watchlist64.

Lemma SFcompare_antisym (a b : double) :
  SFcompare b a = option_map CompOpp (SFcompare a b).
Proof.
  destruct a as [sa|sa| |sa ma ea], b as [sb|sb| |sb mb eb]; simpl;
    try reflexivity; try (by destruct sa); try (by destruct sb);
    try (by destruct sa, sb).
  destruct sa, sb; simpl; try reflexivity.
  - rewrite (Z.compare_antisym ea eb). destruct (Z.compare ea eb); simpl; try reflexivity.
    rewrite (Pos.compare_cont_antisym mb ma Eq). simpl. by rewrite CompOpp_involutive.
  - rewrite (Z.compare_antisym ea eb). destruct (Z.compare ea eb); simpl; try reflexivity.
    by rewrite (Pos.compare_cont_antisym ma mb Eq).
Qed.

Lemma add_comm (a b : double) : add a b = add b a.
Proof.
  unfold add. destruct a as [sa|sa| |sa ma ea], b as [sb|sb| |sb mb eb]; simpl;
    try reflexivity; try (by destruct sa, sb).
  by rewrite (Z.min_comm ea eb), Z.add_comm.
Qed.

Lemma shr_1_nonneg (mrs : shr_record) : (0 <= shr_m mrs)%Z -> (0 <= shr_m (shr_1 mrs))%Z.
Proof. destruct mrs as [[|[p|p|]|[p|p|]] r s]; simpl; lia. Qed.

Lemma iter_pos_shr_1_nonneg (p : positive) (mrs : shr_record) :
  (0 <= shr_m mrs)%Z -> (0 <= shr_m (SpecFloat.iter_pos shr_1 p mrs))%Z.
Proof.
  revert mrs. induction p as [p IH|p IH|]; intros mrs H; simpl.
  - by apply IH, IH, shr_1_nonneg.
  - by apply IH, IH.
  - by apply shr_1_nonneg.
Qed.

Lemma shr_fexp_nonneg (m e : Z) (l : location) :
  (0 <= m)%Z -> (0 <= shr_m (shr_fexp 53 1024 m e l).1)%Z.
Proof.
  intros H. unfold shr_fexp, shr.
  assert (H0 : (0 <= shr_m (shr_record_of_loc m l))%Z) by (by destruct l as [|[]]).
  destruct (_ - e)%Z; simpl; [done| |done]. by apply iter_pos_shr_1_nonneg.
Qed.

Lemma round_nearest_even_nonneg (m : Z) (l : location) :
  (0 <= m)%Z -> (0 <= round_nearest_even m l)%Z.
Proof.
  intros H. destruct l as [|[]]; simpl; try lia. destruct (Z.even m); lia.
Qed.

Lemma binary_round_aux_not_nan (sx : bool) (mx ex : Z) (lx : location) :
  (0 <= mx)%Z -> binary_round_aux 53 1024 sx mx ex lx <> S754_nan.
Proof.
  intros H. unfold binary_round_aux.
  pose proof (shr_fexp_nonneg mx ex lx H) as H1.
  destruct (shr_fexp 53 1024 mx ex lx) as [mrs' e']. simpl in H1.
  pose proof (shr_fexp_nonneg _ e' loc_Exact
                (round_nearest_even_nonneg _ (loc_of_shr_record mrs') H1)) as H2.
  destruct (shr_fexp 53 1024 _ e' loc_Exact) as [mrs'' e'']. simpl in H2.
  destruct (shr_m mrs''); [done| |lia]. by destruct (_ <=? _)%Z.
Qed.

Lemma binary_normalize_not_nan (m e : Z) (szero : bool) :
  binary_normalize 53 1024 m e szero <> S754_nan.
Proof.
  destruct m as [|p|p]; simpl; [done| |]; unfold binary_round;
    destruct (shl_align _ _ _); by apply binary_round_aux_not_nan.
Qed.

Lemma sub_one_not_nan (c : double) : c <> S754_nan -> sub (ofZ 1) c <> S754_nan.
Proof.
  intros Hc. destruct c as [s|s| |s m e]; [done|done|done|].
  unfold sub, SFsub. change (ofZ 1) with (S754_finite false 4503599627370496 (-52)).
  apply binary_normalize_not_nan.
Qed.

Lemma strictEquals_refl (a : double) : a <> S754_nan -> strictEquals a a = true.
Proof.
  intros Ha. unfold strictEquals, SFeqb.
  destruct a as [s|s| |s m e]; simpl; [done|by destruct s|done|].
  destruct s; rewrite Z.compare_refl, Pos.compare_cont_refl; done.
Qed.

Lemma strictEquals_inv (a b : double) :
  strictEquals a b = true ->
  a <> S754_nan /\ (a = b \/ exists sa sb, a = S754_zero sa /\ b = S754_zero sb).
Proof.
  unfold strictEquals, SFeqb.
  destruct a as [sa|sa| |sa ma ea], b as [sb|sb| |sb mb eb]; simpl; try done;
    try (by destruct sa); try (by destruct sb).
  - intros _. split; [done|]. right. by exists sa, sb.
  - destruct sa, sb; try done; intros _; split; try done; by left.
  - destruct sa, sb; try done; destruct (Z.compare_spec ea eb) as [->| |]; try done.
    + destruct (Pos.compare_cont Eq ma mb) eqn:E; try done.
      apply Pos.compare_eq in E as ->. intros _. split; [done|by left].
    + destruct (Pos.compare_cont Eq ma mb) eqn:E; try done.
      apply Pos.compare_eq in E as ->. intros _. split; [done|by left].
Qed.

Lemma equal_cost_equal_profit (c1 c2 : double) :
  strictEquals c1 c2 = true -> strictEquals (sub (ofZ 1) c1) (sub (ofZ 1) c2) = true.
Proof.
  intros [Hnan [<-|(sa & sb & -> & ->)]]%strictEquals_inv.
  - by apply strictEquals_refl, sub_one_not_nan.
  - by vm_compute.
Qed.

Lemma strictEquals_ge (a b : double) : strictEquals a b = true -> ge a b = true.
Proof.
  unfold strictEquals, ge, SFeqb, SFleb. rewrite (SFcompare_antisym a b).
  by destruct (SFcompare a b) as [[]|].
Qed.

Lemma lt_ge (a b : double) : lt a b = true -> ge a b = false /\ ge b a = true.
Proof.
  unfold lt, ge, SFltb, SFleb. rewrite (SFcompare_antisym a b).
  by destruct (SFcompare a b) as [[]|].
Qed.

Lemma exchanged_profits (m : MarketMatch) :
  profit1 (exchanged m) = profit2 m /\ profit2 (exchanged m) = profit1 m.
Proof.
  unfold profit1, profit2, cost1, cost2, exchanged.
  cbn [polymarket kalshi yes_price no_price].
  split; f_equal; apply add_comm.
Qed.

(** The rounding decides: 16c + 81c and 82c + 15c are both 97c, yet the
    two sums are different doubles and strategy 2 is selected; 1c + 95c and
    94c + 2c are the same double and strategy 1 is selected. *)
Example ties_are_ties_of_doubles :
  strategy (toOpportunity (Samples.cents 16 82 15 81)) = 2%nat /\
  strategy (toOpportunity (Samples.cents 1 94 2 95)) = 1%nat.
Proof. split; vm_compute; reflexivity. Qed.

(** C10: when the two strategies yield the same profit - the two costs, or
    the two profits, are equal as the doubles the code computes - the
    calculation selects strategy 1: buy YES on Polymarket and NO on Kalshi,
    at the cost and prices of that strategy. *)
Theorem C10_tie_selects_strategy_1 (m : MarketMatch) :
  strictEquals (cost1 m) (cost2 m) = true \/
  strictEquals (profit1 m) (profit2 m) = true ->
  let o := toOpportunity m in
  strategy o = 1%nat /\
  polyBuy o = Watchlist.YES /\ kalshiBuy o = Watchlist.NO /\
  cost o = add (yes_price (polymarket m)) (no_price (kalshi m)) /\
  polyPrice o = yes_price (polymarket m) /\
  kalshiPrice o = no_price (kalshi m).
Proof.
  intros Htie.
  assert (Heq : strictEquals (profit1 m) (profit2 m) = true).
  { destruct Htie as [Hc|Hp]; [|done]. by apply equal_cost_equal_profit. }
  apply strictEquals_ge in Heq. unfold toOpportunity, chooseStrategy.
  cbn [strategy cost polyBuy polyPrice kalshiBuy kalshiPrice]. rewrite Heq.
  cbn [Nat.eqb]. by repeat split.
Qed.

Lemma C10_witness :
  strictEquals (cost1 (Samples.cents 1 94 2 95)) (cost2 (Samples.cents 1 94 2 95)) = true /\
  strategy (toOpportunity (Samples.cents 1 94 2 95)) = 1%nat /\
  polyBuy (toOpportunity (Samples.cents 1 94 2 95)) = Watchlist.YES /\
  kalshiBuy (toOpportunity (Samples.cents 1 94 2 95)) = Watchlist.NO.
Proof.
  split; [by vm_compute|].
  destruct (C10_tie_selects_strategy_1 (Samples.cents 1 94 2 95)) as (H1 & H2 & H3 & _).
  - left. by vm_compute.
  - auto.
Defined.

(** X4: when the two profits the code computes differ, exchanging the two
    quotes of a matched pair exchanges the sides and the prices to buy
    between the platforms, and the strategy number changes. *)
Theorem swapping_platforms_swaps_sides (m : MarketMatch) :
  lt (profit1 m) (profit2 m) = true \/ lt (profit2 m) (profit1 m) = true ->
  let o := toOpportunity m in
  let o' := toOpportunity (exchanged m) in
  polyBuy o' = kalshiBuy o /\
  kalshiBuy o' = polyBuy o /\
  polyPrice o' = kalshiPrice o /\
  kalshiPrice o' = polyPrice o /\
  strategy o' <> strategy o.
Proof.
  intros Hne. destruct (exchanged_profits m) as [E1 E2].
  unfold toOpportunity, chooseStrategy.
  cbn [strategy cost polyBuy polyPrice kalshiBuy kalshiPrice]. rewrite E1, E2.
  unfold exchanged. cbn [polymarket kalshi yes_price no_price].
  destruct Hne as [[H H']%lt_ge|[H H']%lt_ge]; rewrite H, H'; cbn [Nat.eqb];
    by repeat split.
Qed.

Lemma swapping_platforms_swaps_sides_witness :
  polyBuy (toOpportunity (Samples.cents 40 60 50 50)) = Watchlist.YES /\
  polyBuy (toOpportunity (exchanged (Samples.cents 40 60 50 50))) = Watchlist.NO.
Proof.
  split; [by vm_compute|].
  destruct (swapping_platforms_swaps_sides (Samples.cents 40 60 50 50)) as (H & _).
  - right. by vm_compute.
  - rewrite H. by vm_compute.
Defined.

End Doubles.
